(** * A* global planner plugin (cb_global_planner::AStarPlannerGPP)

    Shallow embedding of
    [global_planner_plugins/a_star_planner/a_star_planner_gpp.cpp]:
    [makePlan], [updateConstraintPositionsInConstraintFrame],
    [calculateMapConstraintArea], [planToWorld] and [checkPlan].

    The plugin talks to four collaborators whose code lives elsewhere: the
    costmap (costmap_2d), the transform listener (tf), the constraint
    evaluator and the grid search (AStarPlanner).  They are interfaces here:
    the numeric type and the opaque types with their operations are the two
    classes below, and what a call sees of the costmap and of tf is the
    record [Env].  A concrete instance ([GridWorld], integer coordinates) is
    used to run the functions. *)

From Stdlib Require Import ZArith Lia Bool.
From stdpp Require Import base list strings.

Local Open Scope Z_scope.

(** ** Numbers *)

(** C++ [double], with the three operations the plugin applies to it: the
    literal [0], subtraction and [atan2]. *)
Class Numerics := {
  double : Type;
  d_zero : double;
  d_sub : double -> double -> double;
  atan2 : double -> double -> double
}.

(** [unsigned int] is 32 bits wide; an [int] handed to an [unsigned int]
    parameter and the sum of two [unsigned int] wrap modulo [2^32]. *)
Definition UINT_MOD : Z := 2 ^ 32.

Definition uint32 (z : Z) : Z := z mod UINT_MOD.

(** costmap_2d/cost_values.h *)
Module costmap_2d.
Definition LETHAL_OBSTACLE : Z := 254.
Definition INSCRIBED_INFLATED_OBSTACLE : Z := 253.
End costmap_2d.

(** ** Messages *)

(** [tf::Point] and [geometry_msgs::Point]: three doubles. *)
Record Point `{Numerics} := mkPoint { p_x : double; p_y : double; p_z : double }.

Arguments mkPoint {_} _ _ _.

(** [PositionConstraint]: the two strings the plugin reads. *)
Record PositionConstraint := mkConstraint {
  frame : string;
  constraint : string
}.

(** ** Collaborators *)

Class Collaborators `{Numerics} := {
  (** ros::Time, and the stamp of a default-constructed header *)
  ros_Time : Type;
  ros_Time_default : ros_Time;
  (** geometry_msgs::Quaternion, the value a default-constructed one holds,
      and tf::createQuaternionMsgFromYaw *)
  Quaternion : Type;
  Quaternion_default : Quaternion;
  createQuaternionMsgFromYaw : double -> Quaternion;
  (** tf::StampedTransform and [operator*] on a point *)
  Transform : Type;
  transform_point : Transform -> Point -> Point;
  (** ConstraintEvaluator: [ce_init spec] is [None] when [init] returns
      false, otherwise the evaluator [evaluate] is then called on *)
  ConstraintEvaluator : Type;
  ce_init : string -> option ConstraintEvaluator;
  ce_evaluate : ConstraintEvaluator -> double -> double -> bool;
  (** the costmap's character map, handed to the search as it is *)
  CharMap : Type;
  (** AStarPlanner: the object behind [planner_].  [AStarPlanner_plan p
      mx_goal my_goal mx_start my_start plan_xs plan_ys reversed] is the
      call [planner_->plan(...)]: [plan_xs] and [plan_ys] go in by
      reference and come back as the pair of the result. *)
  AStarPlanner : Type;
  AStarPlanner_resize : AStarPlanner -> Z -> Z -> AStarPlanner;
  AStarPlanner_setCostmap : AStarPlanner -> CharMap -> AStarPlanner;
  AStarPlanner_plan :
    AStarPlanner -> list Z -> list Z -> Z -> Z -> list Z -> list Z -> bool ->
    AStarPlanner * (list Z * list Z)
}.

Section Planner.
Context `{Collaborators}.

(** std_msgs::Header *)
Record Header := mkHeader {
  h_seq : Z;
  h_stamp : ros_Time;
  h_frame_id : string
}.

(** geometry_msgs::Pose *)
Record Pose := mkPose {
  position : Point;
  orientation : Quaternion
}.

(** geometry_msgs::PoseStamped *)
Record PoseStamped := mkPoseStamped {
  header : Header;
  pose : Pose
}.

(** What [std::vector::resize] fills new slots with. *)
Definition PoseStamped_default : PoseStamped :=
  mkPoseStamped (mkHeader 0 ros_Time_default "")
                (mkPose (mkPoint d_zero d_zero d_zero) Quaternion_default).

#[export] Instance PoseStamped_inhabited : Inhabited PoseStamped :=
  populate PoseStamped_default.

Definition set_stamp (t : ros_Time) (p : PoseStamped) : PoseStamped :=
  mkPoseStamped (mkHeader (h_seq (header p)) t (h_frame_id (header p))) (pose p).

Definition set_frame_id (f : string) (p : PoseStamped) : PoseStamped :=
  mkPoseStamped (mkHeader (h_seq (header p)) (h_stamp (header p)) f) (pose p).

Definition set_position_x (x : double) (p : PoseStamped) : PoseStamped :=
  let q := position (pose p) in
  mkPoseStamped (header p) (mkPose (mkPoint x (p_y q) (p_z q)) (orientation (pose p))).

Definition set_position_y (y : double) (p : PoseStamped) : PoseStamped :=
  let q := position (pose p) in
  mkPoseStamped (header p) (mkPose (mkPoint (p_x q) y (p_z q)) (orientation (pose p))).

Definition set_position_z (z : double) (p : PoseStamped) : PoseStamped :=
  let q := position (pose p) in
  mkPoseStamped (header p) (mkPose (mkPoint (p_x q) (p_y q) z) (orientation (pose p))).

Definition set_orientation (o : Quaternion) (p : PoseStamped) : PoseStamped :=
  mkPoseStamped (header p) (mkPose (position (pose p)) o).

(** ** The costmap and tf, as one call sees them *)

(** costmap_2d::Costmap2D.  [worldToMap] is [None] when the C++ function
    returns false (the point is off the grid). *)
Record Costmap2D := mkCostmap {
  getSizeInCellsX : Z;
  getSizeInCellsY : Z;
  worldToMap : double -> double -> option (Z * Z);
  mapToWorld : Z -> Z -> double * double;
  getCost : Z -> Z -> Z;
  getCharMap : CharMap
}.

(** [lookupTransform target source] is the lookup at [ros::Time(0)];
    [None] when it throws [tf::TransformException].
    [uninitialized_transform] is what a [tf::StampedTransform] declared
    without an initializer holds in this call. *)
Record Env := mkEnv {
  getCostmap : Costmap2D;
  getGlobalFrameID : string;
  lookupTransform : string -> string -> option Transform;
  uninitialized_transform : Transform;
  now : ros_Time
}.

(** ** The plugin object *)

(** The members of AStarPlannerGPP that [makePlan] reads and writes.
    [planner_] is the object the pointer refers to once [initialize] has
    run; [global_costmap_ros_] and [tf_] are in [Env]. *)
Record AStarPlannerGPP := mkGPP {
  initialized_ : bool;
  planner_ : AStarPlanner;
  position_constraint_ : PositionConstraint;
  goal_positions_in_constraint_frame_ : list Point
}.

Definition set_planner (p : AStarPlanner) (st : AStarPlannerGPP) : AStarPlannerGPP :=
  mkGPP (initialized_ st) p (position_constraint_ st)
        (goal_positions_in_constraint_frame_ st).

Definition set_position_constraint (pc : PositionConstraint) (st : AStarPlannerGPP)
  : AStarPlannerGPP :=
  mkGPP (initialized_ st) (planner_ st) pc (goal_positions_in_constraint_frame_ st).

Definition set_goal_positions_in_constraint_frame (l : list Point)
  (st : AStarPlannerGPP) : AStarPlannerGPP :=
  mkGPP (initialized_ st) (planner_ st) (position_constraint_ st) l.

(** Modelled from the spec: [constraintChanged] is declared in
    a_star_planner_gpp.h, which is not among the sources.  The spec: two
    constraints are equal iff both fields match, and the region is
    recomputed when the constraint's value differs from the stored one. *)
Definition constraintChanged (st : AStarPlannerGPP) (pc : PositionConstraint) : bool :=
  negb (String.eqb (frame pc) (frame (position_constraint_ st)))
  || negb (String.eqb (constraint pc) (constraint (position_constraint_ st))).

(** ** updateConstraintPositionsInConstraintFrame *)

(** The values [0, 1, ..., n-1] a counter [for (unsigned int i = 0; i < n; ++i)]
    takes; [n] is an [unsigned int], so the counter does not wrap. *)
Definition counter_range (n : Z) : list Z := seqZ 0 n.

(** The body of the two nested loops, for cell [(i, j)]. *)
Definition evaluate_cell (cm : Costmap2D) (constraint_to_world_tf : Transform)
  (ce : ConstraintEvaluator) (acc : list Point) (i j : Z) : list Point :=
  let '(wx, wy) := mapToWorld cm i j in
  let pw := mkPoint wx wy d_zero in
  let pc := transform_point constraint_to_world_tf pw in
  if ce_evaluate ce (p_x pc) (p_y pc) then acc ++ [pc] else acc.

Definition updateConstraintPositionsInConstraintFrame (env : Env)
  (st : AStarPlannerGPP) (position_constraint : PositionConstraint)
  : bool * AStarPlannerGPP :=
  (* goal_positions_in_constraint_frame_.clear() *)
  let st := set_goal_positions_in_constraint_frame [] st in
  match lookupTransform env (frame position_constraint) (getGlobalFrameID env) with
  | None => (false, st)
  | Some constraint_to_world_tf =>
    match ce_init (constraint position_constraint) with
    | None => (false, st)
    | Some ce =>
      let cm := getCostmap env in
      let region :=
        fold_left (fun acc i =>
          fold_left (fun acc j => evaluate_cell cm constraint_to_world_tf ce acc i j)
                    (counter_range (getSizeInCellsY cm)) acc)
          (counter_range (getSizeInCellsX cm))
          (goal_positions_in_constraint_frame_ st) in
      (true, set_goal_positions_in_constraint_frame region st)
    end
  end.

(** ** calculateMapConstraintArea *)

Definition is_obstacle (cost : Z) : bool :=
  (cost =? costmap_2d.INSCRIBED_INFLATED_OBSTACLE)
  || (cost =? costmap_2d.LETHAL_OBSTACLE).

(** The transform the loop multiplies with: the looked-up one, or, when
    the lookup throws, the local [world_to_constraint_tf] as it was
    declared (the catch block logs and falls through). *)
Definition world_to_constraint_tf (env : Env) (st : AStarPlannerGPP) : Transform :=
  match lookupTransform env (getGlobalFrameID env) (frame (position_constraint_ st)) with
  | Some t => t
  | None => uninitialized_transform env
  end.

(** The loop over [goal_positions_in_constraint_frame_]; [mx], [my] and
    [goal_positions] are the three vectors passed by reference. *)
Fixpoint project_loop (cm : Costmap2D) (t : Transform) (it : list Point)
  (mx my : list Z) (goal_positions : list Point)
  : list Z * list Z * list Point :=
  match it with
  | [] => (mx, my, goal_positions)
  | p :: it' =>
    let pw := transform_point t p in
    match worldToMap cm (p_x pw) (p_y pw) with
    | Some (x, y) =>
      let goal_cell_cost := getCost cm x y in
      if is_obstacle goal_cell_cost
      then project_loop cm t it' mx my goal_positions
      else project_loop cm t it' (mx ++ [x]) (my ++ [y]) (goal_positions ++ [pw])
    | None => project_loop cm t it' mx my goal_positions
    end
  end.

Definition calculateMapConstraintArea (env : Env) (st : AStarPlannerGPP)
  (mx my : list Z) (goal_positions : list Point)
  : list Z * list Z * list Point :=
  project_loop (getCostmap env) (world_to_constraint_tf env st)
               (goal_positions_in_constraint_frame_ st) mx my goal_positions.

(** ** planToWorld *)

(** [unsigned int size = 5] *)
Definition lookahead : Z := 5.

(** One turn of the loop, for counter value [i].  The counter and [size]
    are [unsigned int]: [i+size] and [i-1] wrap, the comparison with
    [plan_xs.size()] is made in [size_t].  [operator[]] is unchecked: [!!!]
    reads the inhabitant where C++ reads out of range. *)
Definition planToWorld_step (env : Env) (plan_xs plan_ys : list Z)
  (plan_time : ros_Time) (global_frame : string)
  (plan : list PoseStamped) (i : nat) : list PoseStamped :=
  let cm := getCostmap env in
  let '(world_x, world_y) :=
    mapToWorld cm (uint32 (plan_xs !!! i)) (uint32 (plan_ys !!! i)) in
  let plan := alter (set_stamp plan_time) i plan in
  let plan := alter (set_frame_id global_frame) i plan in
  let plan := alter (set_position_x world_x) i plan in
  let plan := alter (set_position_y world_y) i plan in
  let plan := alter (set_position_z d_zero) i plan in
  let size := lookahead in
  let k := uint32 (Z.of_nat i + size) in
  if k <? Z.of_nat (length plan_xs) then
    let '(world_x, world_y) :=
      mapToWorld cm (uint32 (plan_xs !!! Z.to_nat k)) (uint32 (plan_ys !!! Z.to_nat k)) in
    let yaw := atan2 (d_sub world_y (p_y (position (pose (plan !!! i)))))
                     (d_sub world_x (p_x (position (pose (plan !!! i))))) in
    alter (set_orientation (createQuaternionMsgFromYaw yaw)) i plan
  else if size <? Z.of_nat (length plan_xs) then
    let prev := Z.to_nat (uint32 (Z.of_nat i - 1)) in
    alter (set_orientation (orientation (pose (plan !!! prev)))) i plan
  else plan.

(** The counter runs through [0 .. plan_xs.size()-1]; this is the C++ loop
    as long as the size fits an [unsigned int] (beyond that the counter
    wraps before it reaches the size). *)
Definition planToWorld (env : Env) (plan_xs plan_ys : list Z)
  (plan : list PoseStamped) : list PoseStamped :=
  let plan_time := now env in
  let global_frame := getGlobalFrameID env in
  let plan := resize (length plan_xs) PoseStamped_default plan in
  fold_left (planToWorld_step env plan_xs plan_ys plan_time global_frame)
            (seq 0 (length plan_xs)) plan.

(** ** checkPlan *)

Fixpoint checkPlan (env : Env) (plan : list PoseStamped) : bool :=
  match plan with
  | [] => true
  | it :: rest =>
    match worldToMap (getCostmap env) (p_x (position (pose it)))
                     (p_y (position (pose it))) with
    | Some (mx, my) =>
      let cost := getCost (getCostmap env) mx my in
      if is_obstacle cost then false else checkPlan env rest
    | None => checkPlan env rest
    end
  end.

(** ** makePlan *)

(** What a call of [makePlan] does to its collaborators, in order:
    entering the region rebuild (with its result), the projection (with
    the cells it produced) and each call of [planner_->plan] (with its
    arguments and the xs, ys it handed back). *)
Inductive Event :=
| EvRebuild (position_constraint : PositionConstraint) (ok : bool)
| EvProject (mx my : list Z)
| EvSearch (mx_goal my_goal : list Z) (mx_start my_start : Z) (reversed : bool)
           (plan_xs plan_ys : list Z).

Definition is_rebuild (e : Event) : bool :=
  match e with EvRebuild _ _ => true | _ => false end.
Definition is_project (e : Event) : bool :=
  match e with EvProject _ _ => true | _ => false end.
Definition is_search (e : Event) : bool :=
  match e with EvSearch _ _ _ _ _ _ _ => true | _ => false end.

(** The return value, the two output vectors, the object after the call
    and the calls made. *)
Record Outcome := mkOutcome {
  ret : bool;
  out_plan : list PoseStamped;
  out_goal_positions : list Point;
  state : AStarPlannerGPP;
  trace : list Event
}.

(** Lines 47-55: the cached region is rebuilt when the constraint changed;
    [None] is the early [return false]. *)
Definition refresh_constraint (env : Env) (st : AStarPlannerGPP)
  (position_constraint : PositionConstraint)
  : option AStarPlannerGPP * AStarPlannerGPP * list Event :=
  if constraintChanged st position_constraint then
    let '(ok, st) :=
      updateConstraintPositionsInConstraintFrame env st position_constraint in
    if ok
    then let st := set_position_constraint position_constraint st in
         (Some st, st, [EvRebuild position_constraint true])
    else (None, st, [EvRebuild position_constraint false])
  else (Some st, st, []).

(** Lines 66-91: the forward search and, when it hands back no xs, the
    search the other way round. Returns the planner object, the cell path
    and the calls made. *)
Definition search (env : Env) (planner : AStarPlanner)
  (mx_goal my_goal : list Z) (mx_start my_start : Z)
  : AStarPlanner * (list Z * list Z) * list Event :=
  let cm := getCostmap env in
  let planner := AStarPlanner_resize planner (getSizeInCellsX cm) (getSizeInCellsY cm) in
  let planner := AStarPlanner_setCostmap planner (getCharMap cm) in
  let '(planner, (plan_xs, plan_ys)) :=
    AStarPlanner_plan planner mx_goal my_goal mx_start my_start [] [] false in
  let ev1 := EvSearch mx_goal my_goal mx_start my_start false plan_xs plan_ys in
  match plan_xs with
  | [] =>
    let mx_start_new := mx_goal !!! (length mx_goal / 2)%nat in
    let my_start_new := my_goal !!! (length my_goal / 2)%nat in
    let mx_goal' := [mx_start] in
    let my_goal' := [my_start] in
    let '(planner, (plan_xs', plan_ys')) :=
      AStarPlanner_plan planner mx_goal' my_goal' mx_start_new my_start_new
                        plan_xs plan_ys true in
    let ev2 := EvSearch mx_goal' my_goal' mx_start_new my_start_new true
                        plan_xs' plan_ys' in
    (planner, (reverse plan_xs', reverse plan_ys'), [ev1; ev2])
  | _ => (planner, (plan_xs, plan_ys), [ev1])
  end.

Definition makePlan (env : Env) (st : AStarPlannerGPP) (start : Point)
  (position_constraint : PositionConstraint)
  (plan : list PoseStamped) (goal_positions : list Point) : Outcome :=
  if negb (initialized_ st) then mkOutcome false plan goal_positions st []
  else
    (* plan.clear(); goal_positions.clear(); *)
    let plan : list PoseStamped := [] in
    let goal_positions : list Point := [] in
    if String.eqb (frame position_constraint) ""
       && String.eqb (constraint position_constraint) ""
    then mkOutcome false plan goal_positions st []
    else
      match worldToMap (getCostmap env) (p_x start) (p_y start) with
      | None => mkOutcome false plan goal_positions st []
      | Some (mx_start, my_start) =>
        match refresh_constraint env st position_constraint with
        | (None, st, tr) => mkOutcome false plan goal_positions st tr
        | (Some _, st, tr) =>
          let '(mx_goal, my_goal, goal_positions) :=
            calculateMapConstraintArea env st [] [] goal_positions in
          let tr := tr ++ [EvProject mx_goal my_goal] in
          if (length mx_goal =? 0)%nat
          then mkOutcome false plan goal_positions st tr
          else
            let '(planner, (plan_xs, plan_ys), tr_search) :=
              search env (planner_ st) mx_goal my_goal mx_start my_start in
            let st := set_planner planner st in
            let plan := planToWorld env plan_xs plan_ys plan in
            let tr := tr ++ tr_search in
            match plan with
            | [] => mkOutcome false plan goal_positions st tr
            | _ => mkOutcome true plan goal_positions st tr
            end
        end
      end.

(** ** Specification-side definitions *)

(** The spec's description of the projection: every cached point is
    transformed, converted to a cell, and dropped when it is off the grid
    or on an impassable cell; what is kept is the cell with its world
    point. *)
Definition retained (cm : Costmap2D) (t : Transform) (p : Point)
  : option (Z * Z * Point) :=
  let pw := transform_point t p in
  match worldToMap cm (p_x pw) (p_y pw) with
  | Some (x, y) => if is_obstacle (getCost cm x y) then None else Some (x, y, pw)
  | None => None
  end.

Definition projectToGrid_spec (cm : Costmap2D) (t : Transform) (region : list Point)
  : list (Z * Z * Point) :=
  omap (retained cm t) region.


(** The world coordinates of the [i]-th cell of a cell path. *)
Definition cell_world (env : Env) (plan_xs plan_ys : list Z) (i : nat) : double * double :=
  mapToWorld (getCostmap env) (uint32 (plan_xs !!! i)) (uint32 (plan_ys !!! i)).

(** The heading the loop computes at index [i] from the cell [lookahead]
    further on. *)
Definition heading (env : Env) (plan_xs plan_ys : list Z) (i : nat) : Quaternion :=
  let here := cell_world env plan_xs plan_ys i in
  let ahead := cell_world env plan_xs plan_ys (i + 5) in
  createQuaternionMsgFromYaw
    (atan2 (d_sub (snd ahead) (snd here)) (d_sub (fst ahead) (fst here))).


(** *** The runs of [makePlan]

    One constructor per way through the function; [makePlan_runs] says the
    function always takes one of them. *)

Inductive refresh_run (env : Env) (st : AStarPlannerGPP) (pc : PositionConstraint)
  : option AStarPlannerGPP * AStarPlannerGPP * list Event -> Prop :=
| refresh_unchanged :
    pc = position_constraint_ st ->
    refresh_run env st pc (Some st, st, [])
| refresh_rebuilt st1 :
    pc <> position_constraint_ st ->
    updateConstraintPositionsInConstraintFrame env st pc = (true, st1) ->
    refresh_run env st pc
      (Some (set_position_constraint pc st1), set_position_constraint pc st1,
       [EvRebuild pc true])
| refresh_failed st1 :
    pc <> position_constraint_ st ->
    updateConstraintPositionsInConstraintFrame env st pc = (false, st1) ->
    refresh_run env st pc (None, st1, [EvRebuild pc false]).

Inductive search_run (env : Env) (planner : AStarPlanner)
  (mx_goal my_goal : list Z) (mx_start my_start : Z)
  : AStarPlanner * (list Z * list Z) * list Event -> Prop :=
| search_forward p1 plan_xs plan_ys :
    AStarPlanner_plan
      (AStarPlanner_setCostmap
         (AStarPlanner_resize planner (getSizeInCellsX (getCostmap env))
                              (getSizeInCellsY (getCostmap env)))
         (getCharMap (getCostmap env)))
      mx_goal my_goal mx_start my_start [] [] false = (p1, (plan_xs, plan_ys)) ->
    plan_xs <> [] ->
    search_run env planner mx_goal my_goal mx_start my_start
      (p1, (plan_xs, plan_ys),
       [EvSearch mx_goal my_goal mx_start my_start false plan_xs plan_ys])
| search_fallback p1 plan_ys p2 plan_xs' plan_ys' :
    AStarPlanner_plan
      (AStarPlanner_setCostmap
         (AStarPlanner_resize planner (getSizeInCellsX (getCostmap env))
                              (getSizeInCellsY (getCostmap env)))
         (getCharMap (getCostmap env)))
      mx_goal my_goal mx_start my_start [] [] false = (p1, ([], plan_ys)) ->
    AStarPlanner_plan p1 [mx_start] [my_start]
      (mx_goal !!! (length mx_goal / 2)%nat) (my_goal !!! (length my_goal / 2)%nat)
      [] plan_ys true = (p2, (plan_xs', plan_ys')) ->
    search_run env planner mx_goal my_goal mx_start my_start
      (p2, (reverse plan_xs', reverse plan_ys'),
       [EvSearch mx_goal my_goal mx_start my_start false [] plan_ys;
        EvSearch [mx_start] [my_start]
                 (mx_goal !!! (length mx_goal / 2)%nat)
                 (my_goal !!! (length my_goal / 2)%nat) true plan_xs' plan_ys']).

Definition empty_constraint (pc : PositionConstraint) : Prop :=
  frame pc = "" /\ constraint pc = "".

Inductive makePlan_run (env : Env) (st : AStarPlannerGPP) (start : Point)
  (pc : PositionConstraint) (plan : list PoseStamped) (goal_positions : list Point)
  : Outcome -> Prop :=
| run_uninitialized :
    initialized_ st = false ->
    makePlan_run env st start pc plan goal_positions
      (mkOutcome false plan goal_positions st [])
| run_nothing_specified :
    initialized_ st = true ->
    empty_constraint pc ->
    makePlan_run env st start pc plan goal_positions (mkOutcome false [] [] st [])
| run_start_off_map :
    initialized_ st = true ->
    ~ empty_constraint pc ->
    worldToMap (getCostmap env) (p_x start) (p_y start) = None ->
    makePlan_run env st start pc plan goal_positions (mkOutcome false [] [] st [])
| run_rebuild_failed mx_start my_start st1 tr :
    initialized_ st = true ->
    ~ empty_constraint pc ->
    worldToMap (getCostmap env) (p_x start) (p_y start) = Some (mx_start, my_start) ->
    refresh_run env st pc (None, st1, tr) ->
    makePlan_run env st start pc plan goal_positions (mkOutcome false [] [] st1 tr)
| run_no_goal mx_start my_start st1 tr my_goal gp :
    initialized_ st = true ->
    ~ empty_constraint pc ->
    worldToMap (getCostmap env) (p_x start) (p_y start) = Some (mx_start, my_start) ->
    refresh_run env st pc (Some st1, st1, tr) ->
    calculateMapConstraintArea env st1 [] [] [] = ([], my_goal, gp) ->
    makePlan_run env st start pc plan goal_positions
      (mkOutcome false [] gp st1 (tr ++ [EvProject [] my_goal]))
| run_searched mx_start my_start st1 tr mx_goal my_goal gp planner plan_xs plan_ys trs :
    initialized_ st = true ->
    ~ empty_constraint pc ->
    worldToMap (getCostmap env) (p_x start) (p_y start) = Some (mx_start, my_start) ->
    refresh_run env st pc (Some st1, st1, tr) ->
    calculateMapConstraintArea env st1 [] [] [] = (mx_goal, my_goal, gp) ->
    mx_goal <> [] ->
    search_run env (planner_ st1) mx_goal my_goal mx_start my_start
               (planner, (plan_xs, plan_ys), trs) ->
    makePlan_run env st start pc plan goal_positions
      (mkOutcome (negb (bool_decide (plan_xs = [])))
                 (planToWorld env plan_xs plan_ys []) gp
                 (set_planner planner st1)
                 ((tr ++ [EvProject mx_goal my_goal]) ++ trs)).

(** ** initialize *)


(** ** Further specification-side definitions *)

(** The cells of the grid in the order the two loops of the rebuild visit
    them: [i] outside, [j] inside. *)
Definition sweep_cells (cm : Costmap2D) : list (Z * Z) :=
  flat_map (fun i => map (fun j => (i, j)) (counter_range (getSizeInCellsY cm)))
           (counter_range (getSizeInCellsX cm)).

(** The world point [mapToWorld] gives for a cell, at height 0. *)
Definition cell_centre (cm : Costmap2D) (c : Z * Z) : Point :=
  mkPoint (fst (mapToWorld cm (fst c) (snd c))) (snd (mapToWorld cm (fst c) (snd c)))
          d_zero.

(** The points of the region: the cell centres, taken to the constraint
    frame, that the evaluator accepts. *)
Definition region_spec (cm : Costmap2D) (t : Transform) (ce : ConstraintEvaluator)
  : list Point :=
  omap (fun c => let pc := transform_point t (cell_centre cm c) in
                 if ce_evaluate ce (p_x pc) (p_y pc) then Some pc else None)
       (sweep_cells cm).

(** Whether a cell is a goal cell: its centre satisfies the constraint in
    the constraint frame and its cost is not impassable. *)
Definition goal_cell (cm : Costmap2D) (t : Transform) (ce : ConstraintEvaluator)
  (c : Z * Z) : bool :=
  let pc := transform_point t (cell_centre cm c) in
  ce_evaluate ce (p_x pc) (p_y pc) && negb (is_obstacle (getCost cm (fst c) (snd c))).

(** What [planToWorld] leaves in slot [i] when the vector it was handed,
    resized, was [before]. *)
Definition pose_written (env : Env) (plan_xs plan_ys : list Z)
  (before after : list PoseStamped) (i : nat) : Prop :=
  let n := length plan_xs in
  header (after !!! i)
  = mkHeader (h_seq (header (before !!! i))) (now env) (getGlobalFrameID env)
  /\ position (pose (after !!! i))
     = mkPoint (fst (cell_world env plan_xs plan_ys i))
               (snd (cell_world env plan_xs plan_ys i)) d_zero
  /\ ((i + 5 < n)%nat ->
      orientation (pose (after !!! i)) = heading env plan_xs plan_ys i)
  /\ ((n <= i + 5)%nat -> (5 < n)%nat ->
      orientation (pose (after !!! i)) = orientation (pose (after !!! (i - 1)%nat)))
  /\ ((n <= 5)%nat ->
      orientation (pose (after !!! i)) = orientation (pose (before !!! i))).

(** Whether [checkPlan] passes over a pose: it is off the grid, or on a
    cell that is not impassable. *)
Definition pose_passes (env : Env) (it : PoseStamped) : bool :=
  match worldToMap (getCostmap env) (p_x (position (pose it)))
                   (p_y (position (pose it))) with
  | Some (mx, my) => negb (is_obstacle (getCost (getCostmap env) mx my))
  | None => true
  end.

End Planner.

(** ** A concrete world

    A 4 x 4 grid whose cells are one unit wide and whose origin is the
    world origin, so a cell and its world coordinates are the same pair of
    integers.  Cell (1,1) is lethal and cell (2,1) is inscribed-inflated.
    Transforms are translations; the frame [beacon] sits at world (2,2)
    and the frame [pillar] on the lethal cell.  The search is a parameter
    of the world. *)
Module GridWorld.

Definition numerics : Numerics :=
  {| double := Z;
     d_zero := 0;
     d_sub := Z.sub;
     (* a compass code stands in for the angle *)
     atan2 := fun y x => 3 * Z.sgn y + Z.sgn x |}.

Definition SearchFn : Type :=
  unit -> list Z -> list Z -> Z -> Z -> list Z -> list Z -> bool ->
  unit * (list Z * list Z).

Definition translate (t : Z * Z) (p : @Point numerics) : @Point numerics :=
  @mkPoint numerics (@p_x numerics p + fst t) (@p_y numerics p + snd t)
           (@p_z numerics p).

(** The specifications the evaluator accepts: [near] (within one unit of
    the frame's origin in both coordinates) and [here] (the origin). *)
Definition parse_spec (spec : string) : option Z :=
  if String.eqb spec "near" then Some 1
  else if String.eqb spec "here" then Some 0
  else None.

Definition within (r x y : Z) : bool := (Z.abs x <=? r) && (Z.abs y <=? r).

Definition world (plan : SearchFn) : @Collaborators numerics :=
  @Build_Collaborators numerics
    Z 0                                  (* ros_Time *)
    (option Z) None (fun yaw : Z => Some yaw)  (* Quaternion *)
    (Z * Z)%type translate               (* Transform *)
    Z parse_spec within                      (* ConstraintEvaluator *)
    unit                                 (* CharMap *)
    unit (fun p _ _ => p) (fun p _ => p) plan.  (* AStarPlanner *)

(** A search that goes straight from the start to the first seed. *)
Definition direct : SearchFn :=
  fun p mx_goal my_goal mx_start my_start plan_xs plan_ys _ =>
    match mx_goal, my_goal with
    | gx :: _, gy :: _ => (p, (plan_xs ++ [mx_start; gx], plan_ys ++ [my_start; gy]))
    | _, _ => (p, (plan_xs, plan_ys))
    end.

(** A search that never finds a path. *)
Definition blocked : SearchFn :=
  fun p _ _ _ _ plan_xs plan_ys _ => (p, (plan_xs, plan_ys)).


Section World.
Variable plan : SearchFn.


Definition on_grid (x y : Z) : bool :=
  (0 <=? x) && (x <? 4) && (0 <=? y) && (y <? 4).

Definition cost (x y : Z) : Z :=
  if (x =? 1) && (y =? 1) then costmap_2d.LETHAL_OBSTACLE
  else if (x =? 2) && (y =? 1) then costmap_2d.INSCRIBED_INFLATED_OBSTACLE
  else 0.

Definition costmap : @Costmap2D numerics (world plan) :=
  @mkCostmap numerics (world plan) 4 4
    (fun x y => if on_grid x y then Some (x, y) else None)
    (fun i j => (i, j))
    cost
    tt.

(** tf knows [map], [beacon] and [pillar]; any other frame makes the
    lookup throw. *)
Definition tf_table (target source : string) : option (Z * Z) :=
  if String.eqb target "beacon" && String.eqb source "map" then Some (-2, -2)
  else if String.eqb target "map" && String.eqb source "beacon" then Some (2, 2)
  else if String.eqb target "pillar" && String.eqb source "map" then Some (-1, -1)
  else if String.eqb target "map" && String.eqb source "pillar" then Some (1, 1)
  else None.

Definition env : @Env numerics (world plan) :=
  @mkEnv numerics (world plan) costmap "map" tf_table (0, 0) 42.

(** The same world while tf has no transform at all; the transform
    declared in [calculateMapConstraintArea] happens to hold (1, 3). *)
Definition env_tf_down : @Env numerics (world plan) :=
  @mkEnv numerics (world plan) costmap "map" (fun _ _ => None) (1, 3) 42.

Definition pt (x y : Z) : @Point numerics := @mkPoint numerics x y 0.

(** A plugin object fresh from [initialize]. *)
Definition fresh : @AStarPlannerGPP numerics (world plan) :=
  @mkGPP numerics (world plan) true tt (mkConstraint "" "") [].


(** A plugin object that has planned for [here] in [beacon]. *)
Definition at_beacon : @AStarPlannerGPP numerics (world plan) :=
  @mkGPP numerics (world plan) true tt (mkConstraint "beacon" "here") [pt 0 0].


(** The orientation of a pose: [Some] of the compass code, or [None] when
    it was never set. *)
Definition yaw_of (p : @PoseStamped numerics (world plan)) : option Z :=
  @orientation numerics (world plan) (@pose numerics (world plan) p).

(** A pose that already has an orientation. *)
Definition a_pose_facing (x y q : Z) : @PoseStamped numerics (world plan) :=
  @mkPoseStamped numerics (world plan)
    (@mkHeader numerics (world plan) 0 7 "map")
    (@mkPose numerics (world plan) (pt x y) (Some q)).

(** The stamp of a pose. *)
Definition stamp_of (p : @PoseStamped numerics (world plan)) : Z :=
  @h_stamp numerics (world plan) (@header numerics (world plan) p).

End World.

End GridWorld.

(** * Properties *)

Section Properties.
Context `{Collaborators}.

(** ** Helper lemmas *)

Lemma project_loop_spec cm t it : forall mx my gp,
  project_loop cm t it mx my gp =
  (mx ++ map (fun c => fst (fst c)) (projectToGrid_spec cm t it),
   my ++ map (fun c => snd (fst c)) (projectToGrid_spec cm t it),
   gp ++ map snd (projectToGrid_spec cm t it)).
Proof.
  induction it as [|p it IH]; intros mx my gp.
  - simpl. by rewrite !app_nil_r.
  - change (projectToGrid_spec cm t (p :: it))
      with (match retained cm t p with
            | Some c => c :: projectToGrid_spec cm t it
            | None => projectToGrid_spec cm t it
            end).
    cbn [project_loop]. unfold retained.
    destruct (worldToMap cm _ _) as [[x y]|]; [|apply IH].
    destruct (is_obstacle _); [apply IH|].
    rewrite IH. cbn [map fst snd]. by rewrite <- !app_assoc.
Qed.

Lemma calculateMapConstraintArea_lengths env st mx my gp :
  calculateMapConstraintArea env st [] [] [] = (mx, my, gp) ->
  length my = length mx /\ length gp = length mx.
Proof.
  unfold calculateMapConstraintArea. rewrite project_loop_spec. simpl.
  intros [= <- <- <-]. by rewrite !length_map.
Qed.

Lemma is_obstacle_true c :
  is_obstacle c = true <->
  c = costmap_2d.INSCRIBED_INFLATED_OBSTACLE \/ c = costmap_2d.LETHAL_OBSTACLE.
Proof. unfold is_obstacle. rewrite orb_true_iff, !Z.eqb_eq. tauto. Qed.

Lemma planToWorld_step_length env xs ys tm fr plan i :
  length (planToWorld_step env xs ys tm fr plan i) = length plan.
Proof.
  unfold planToWorld_step.
  destruct (mapToWorld _ _ _) as [wx wy].
  destruct (_ <? _); [destruct (mapToWorld _ _ _)|destruct (_ <? _)];
    by rewrite !length_alter.
Qed.

Lemma planToWorld_fold_length env xs ys tm fr idx : forall plan,
  length (fold_left (planToWorld_step env xs ys tm fr) idx plan) = length plan.
Proof.
  induction idx as [|i idx IH]; intros plan; simpl; [done|].
  by rewrite IH, planToWorld_step_length.
Qed.

Lemma planToWorld_length env xs ys plan :
  length (planToWorld env xs ys plan) = length xs.
Proof.
  unfold planToWorld. by rewrite planToWorld_fold_length, length_resize.
Qed.

Lemma planToWorld_nil env xs ys plan :
  planToWorld env xs ys plan = [] <-> xs = [].
Proof.
  rewrite <- !length_zero_iff_nil, planToWorld_length. done.
Qed.

Lemma constraintChanged_false st pc :
  constraintChanged st pc = false <-> pc = position_constraint_ st.
Proof.
  unfold constraintChanged. rewrite orb_false_iff, !negb_false_iff, !String.eqb_eq.
  destruct pc as [f c], (position_constraint_ st) as [f' c']; simpl.
  split; [intros [-> ->]; done | intros [= -> ->]; done].
Qed.

Lemma constraintChanged_true st pc :
  constraintChanged st pc = true <-> pc <> position_constraint_ st.
Proof.
  rewrite <- constraintChanged_false. destruct (constraintChanged st pc); split; congruence.
Qed.

Lemma refresh_constraint_runs env st pc :
  refresh_run env st pc (refresh_constraint env st pc).
Proof.
  unfold refresh_constraint.
  destruct (constraintChanged st pc) eqn:Hc.
  - apply constraintChanged_true in Hc.
    destruct (updateConstraintPositionsInConstraintFrame env st pc) as [[] st1] eqn:Hu;
      by constructor.
  - apply constraintChanged_false in Hc. by constructor.
Qed.

Lemma search_runs env planner mx_goal my_goal mx_start my_start :
  search_run env planner mx_goal my_goal mx_start my_start
             (search env planner mx_goal my_goal mx_start my_start).
Proof.
  unfold search.
  destruct (AStarPlanner_plan _ mx_goal my_goal mx_start my_start [] [] false)
    as [p1 [xs ys]] eqn:Hf.
  destruct xs as [|x xs].
  - destruct (AStarPlanner_plan p1 _ _ _ _ _ _ true) as [p2 [xs' ys']] eqn:Hb.
    by eapply search_fallback.
  - by apply search_forward.
Qed.

Lemma makePlan_runs env st start pc plan goal_positions :
  makePlan_run env st start pc plan goal_positions
               (makePlan env st start pc plan goal_positions).
Proof.
  unfold makePlan.
  destruct (initialized_ st) eqn:Hinit; simpl; [|by constructor].
  destruct (String.eqb (frame pc) "" && String.eqb (constraint pc) "") eqn:Hpc.
  { apply andb_true_iff in Hpc as [Hf Hc]. apply String.eqb_eq in Hf, Hc.
    by constructor. }
  assert (~ empty_constraint pc) as Hne.
  { intros [Hf Hc]. rewrite Hf, Hc in Hpc. discriminate. }
  destruct (worldToMap _ _ _) as [[sx sy]|] eqn:Hstart; [|by constructor].
  pose proof (refresh_constraint_runs env st pc) as Hr.
  destruct (refresh_constraint env st pc) as [[[st1'|] st1] tr];
    [|by eapply run_rebuild_failed].
  assert (st1' = st1) as -> by (by inversion Hr).
  destruct (calculateMapConstraintArea env st1 [] [] []) as [[mx my] gp] eqn:Hp.
  destruct mx as [|x mx]; simpl; [by eapply run_no_goal|].
  pose proof (search_runs env (planner_ st1) (x :: mx) my sx sy) as Hs.
  destruct (search env (planner_ st1) (x :: mx) my sx sy) as [[planner [xs ys]] trs].
  pose proof (run_searched env st start pc plan goal_positions sx sy st1 tr
                (x :: mx) my gp planner xs ys trs Hinit Hne Hstart Hr Hp
                ltac:(done) Hs) as Hrun.
  destruct xs as [|c xs]; [exact Hrun|].
  rewrite bool_decide_eq_false_2 in Hrun by done.
  destruct (planToWorld env (c :: xs) ys []) as [|q plan'] eqn:Hplan; [|exact Hrun].
  apply planToWorld_nil in Hplan. discriminate.
Qed.


Lemma refresh_run_trace env st pc r st1 tr :
  refresh_run env st pc (r, st1, tr) ->
  tr = [] \/ exists ok, tr = [EvRebuild pc ok].
Proof. inversion 1; subst; eauto. Qed.

Lemma search_run_trace env planner mx my sx sy r trs :
  search_run env planner mx my sx sy (r, trs) ->
  Forall (fun e => is_search e = true) trs.
Proof. inversion 1; subst; repeat constructor. Qed.

Lemma search_trace_no_project env planner mx my sx sy r trs gx gy :
  search_run env planner mx my sx sy (r, trs) -> ~ In (EvProject gx gy) trs.
Proof.
  intros Hs Hin. apply search_run_trace in Hs.
  rewrite Forall_forall in Hs. apply list_elem_of_In, Hs in Hin. discriminate.
Qed.

Lemma refresh_trace_no_project env st pc r st1 tr gx gy :
  refresh_run env st pc (r, st1, tr) -> ~ In (EvProject gx gy) tr.
Proof.
  intros Hr Hin. apply refresh_run_trace in Hr as [-> | [ok ->]]; simpl in Hin;
    intuition discriminate.
Qed.

Lemma refresh_trace_no_search env st pc r st1 tr :
  refresh_run env st pc (r, st1, tr) -> filter is_search tr = [].
Proof. intros Hr. by apply refresh_run_trace in Hr as [-> | [ok ->]]. Qed.

Lemma updateConstraintPositionsInConstraintFrame_frame env st pc ok st1 :
  updateConstraintPositionsInConstraintFrame env st pc = (ok, st1) ->
  initialized_ st1 = initialized_ st
  /\ planner_ st1 = planner_ st
  /\ position_constraint_ st1 = position_constraint_ st.
Proof.
  unfold updateConstraintPositionsInConstraintFrame.
  destruct (lookupTransform _ _ _); [destruct (ce_init _)|]; by intros [= <- <-].
Qed.

Lemma refresh_run_frame env st pc r st1 tr :
  refresh_run env st pc (r, st1, tr) ->
  initialized_ st1 = initialized_ st
  /\ (r <> None -> position_constraint_ st1 = pc).
Proof.
  inversion 1 as [Heq | st2 Hne Hu | st2 Hne Hu]; subst; simpl.
  - done.
  - by apply updateConstraintPositionsInConstraintFrame_frame in Hu as (-> & _ & _).
  - by apply updateConstraintPositionsInConstraintFrame_frame in Hu as (-> & _ & _).
Qed.


Lemma search_run_no_rebuild env planner mx my sx sy r trs :
  search_run env planner mx my sx sy (r, trs) ->
  filter is_rebuild trs = [] /\ filter is_project trs = [].
Proof. by inversion 1. Qed.

(** ** The empty constraint *)

(** C6: on an initialized planner, a constraint whose frame and
    specification are both empty makes [makePlan] return false, and the
    call changes neither the cached constraint region nor the stored
    constraint. *)
Theorem makePlan_empty_constraint_noop env st start pc plan goal_positions :
  initialized_ st = true ->
  frame pc = "" ->
  constraint pc = "" ->
  let o := makePlan env st start pc plan goal_positions in
  ret o = false
  /\ goal_positions_in_constraint_frame_ (state o)
     = goal_positions_in_constraint_frame_ st
  /\ position_constraint_ (state o) = position_constraint_ st.
Proof.
  intros Hinit Hf Hc. unfold makePlan. rewrite Hinit, Hf, Hc. simpl. done.
Qed.

(** ** The empty goal cell set *)

(** C3: on an initialized planner, with a start pose on the grid and a
    constraint that is not the empty one, a call whose projection produced
    no goal cell returns false and never calls the search. *)
Theorem makePlan_empty_goal_set_no_search env st start pc plan goal_positions my :
  initialized_ st = true ->
  is_Some (worldToMap (getCostmap env) (p_x start) (p_y start)) ->
  ~ (frame pc = "" /\ constraint pc = "") ->
  let o := makePlan env st start pc plan goal_positions in
  In (EvProject [] my) (trace o) ->
  ret o = false /\ filter is_search (trace o) = [].
Proof.
  intros Hinit Hstart Hpc o. subst o.
  destruct (makePlan_runs env st start pc plan goal_positions)
    as [Hu | | | sx sy st1 tr _ _ _ Hr | sx sy st1 tr my' gp _ _ _ Hr
        | sx sy st1 tr mx' my' gp p xs ys trs _ _ _ Hr _ Hmx Hs];
    simpl; try congruence; try done.
  - intros Hin. by apply (refresh_trace_no_project _ _ _ _ _ _ _ _ Hr) in Hin.
  - intros _. split; [done|].
    apply refresh_trace_no_search in Hr. rewrite filter_app, Hr. done.
  - intros Hin. exfalso. rewrite !in_app_iff in Hin. simpl in Hin.
    destruct Hin as [[Hin | [[= -> _] | []]] | Hin]; [| done |].
    + by apply (refresh_trace_no_project _ _ _ _ _ _ _ _ Hr) in Hin.
    + by apply (search_trace_no_project _ _ _ _ _ _ _ _ _ _ Hs) in Hin.
Qed.

(** ** The outputs of a failing call *)


(** ** Rebuild on constraint change only *)

(** C5 (amended): in a call that passes the precondition checks
    (initialized, not the empty constraint, start on the grid) the region
    rebuild is invoked exactly when the constraint's value differs from the
    stored one.  When such a call got as far as the projection, a following
    call with the same constraint in the same world, its start on the grid,
    does not invoke the rebuild and does run the projection once. *)
Theorem makePlan_rebuild_on_change env st start pc plan goal_positions :
  initialized_ st = true ->
  ~ (frame pc = "" /\ constraint pc = "") ->
  is_Some (worldToMap (getCostmap env) (p_x start) (p_y start)) ->
  let o := makePlan env st start pc plan goal_positions in
  ((exists ok, filter is_rebuild (trace o) = [EvRebuild pc ok])
   <-> pc <> position_constraint_ st)
  /\ (filter is_rebuild (trace o) = [] <-> pc = position_constraint_ st)
  /\ forall start' plan' goal_positions',
      (exists mx my, In (EvProject mx my) (trace o)) ->
      is_Some (worldToMap (getCostmap env) (p_x start') (p_y start')) ->
      let o' := makePlan env (state o) start' pc plan' goal_positions' in
      filter is_rebuild (trace o') = []
      /\ exists mx my, filter is_project (trace o') = [EvProject mx my].
Proof.
  intros Hinit Hpc Hstart o.
  assert (forall st0 start0 plan0 gp0,
    initialized_ st0 = true ->
    is_Some (worldToMap (getCostmap env) (p_x start0) (p_y start0)) ->
    let o0 := makePlan env st0 start0 pc plan0 gp0 in
    (pc = position_constraint_ st0 ->
     filter is_rebuild (trace o0) = []
     /\ exists mx my, filter is_project (trace o0) = [EvProject mx my])
    /\ (pc <> position_constraint_ st0 ->
        exists ok, filter is_rebuild (trace o0) = [EvRebuild pc ok])
    /\ ((exists mx my, In (EvProject mx my) (trace o0)) ->
        initialized_ (state o0) = true /\ position_constraint_ (state o0) = pc))
    as Hcall.
  { clear dependent st. clear dependent start. clear plan goal_positions.
    intros st start plan gp Hinit Hstart o0. subst o0.
    destruct (makePlan_runs env st start pc plan gp)
      as [Hu | _ He | _ _ Hs | sx sy st1 tr _ _ _ Hr | sx sy st1 tr my' gp' _ _ _ Hr Hp
          | sx sy st1 tr mx' my' gp' p xs ys trs _ _ _ Hr Hp Hmx Hs];
      simpl; try congruence; try done.
    - rewrite Hs in Hstart. by destruct Hstart.
    - inversion Hr; subst. split; [done|]. split; [eauto|].
      intros (mx & my & Hin). simpl in Hin. intuition discriminate.
    - pose proof (refresh_run_frame _ _ _ _ _ _ Hr) as [Hi Hc].
      rewrite !filter_app.
      inversion Hr; subst; simpl; (split; [|split]); try done; eauto;
        try (intros _; split; [congruence | by apply Hc]).
    - pose proof (refresh_run_frame _ _ _ _ _ _ Hr) as [Hi Hc].
      pose proof (search_run_no_rebuild _ _ _ _ _ _ _ _ Hs) as [Hs1 Hs2].
      rewrite !filter_app, Hs1, Hs2.
      inversion Hr; subst; simpl; (split; [|split]); try done; eauto;
        try (intros _; split; [congruence | by apply Hc]). }
  destruct (Hcall st start plan goal_positions Hinit Hstart) as (Hsame & Hdiff & Hnext).
  fold o in Hsame, Hdiff, Hnext.
  split; [|split].
  - split; [|done].
    intros [ok Hok] ->. destruct Hsame as [Hsame _]; [done|]. congruence.
  - split; [|apply Hsame].
    intros Hnil. destruct (constraintChanged st pc) eqn:Hch.
    + apply constraintChanged_true in Hch. destruct (Hdiff Hch) as [ok Hok]. congruence.
    + by apply constraintChanged_false in Hch.
  - intros start' plan' gp' Hproj Hstart' o'.
    destruct (Hnext Hproj) as [Hi Hc].
    by destruct (Hcall (state o) start' plan' gp' Hi Hstart') as ((? & ?) & _).
Qed.

(** ** The projection *)

(** C9: the projection keeps exactly the cached points whose transformed
    world coordinates convert to a cell whose cost is neither impassable
    value; points off the grid or on such a cell are dropped, and the
    cells and the goal world positions come out one for one, in the order
    of the cached region, appended to the three vectors. *)
Theorem calculateMapConstraintArea_projects env st mx my goal_positions :
  let cm := getCostmap env in
  let t := world_to_constraint_tf env st in
  let region := goal_positions_in_constraint_frame_ st in
  let kept := projectToGrid_spec cm t region in
  calculateMapConstraintArea env st mx my goal_positions
  = (mx ++ map (fun c => fst (fst c)) kept,
     my ++ map (fun c => snd (fst c)) kept,
     goal_positions ++ map snd kept)
  /\ forall x y pw,
      In (x, y, pw) kept <->
      exists p, In p region
                /\ pw = transform_point t p
                /\ worldToMap cm (p_x pw) (p_y pw) = Some (x, y)
                /\ getCost cm x y <> costmap_2d.INSCRIBED_INFLATED_OBSTACLE
                /\ getCost cm x y <> costmap_2d.LETHAL_OBSTACLE.
Proof.
  intros cm t region kept. split.
  - apply project_loop_spec.
  - intros x y pw. subst kept. unfold projectToGrid_spec.
    rewrite <- list_elem_of_In, list_elem_of_omap.
    split.
    + intros (p & Hp & Hk). exists p. apply list_elem_of_In in Hp.
      unfold retained in Hk.
      destruct (worldToMap cm _ _) as [[x' y']|] eqn:Hw; [|done].
      destruct (is_obstacle (getCost cm x' y')) eqn:Ho; [done|].
      injection Hk as -> -> <-.
      repeat split; try done.
      * intros Hc. rewrite (proj2 (is_obstacle_true _)) in Ho by auto. done.
      * intros Hc. rewrite (proj2 (is_obstacle_true _)) in Ho by auto. done.
    + intros (p & Hp & -> & Hw & Hc1 & Hc2). exists p.
      split; [by apply list_elem_of_In|].
      unfold retained. fold cm t. rewrite Hw.
      destruct (is_obstacle (getCost cm x y)) eqn:Ho; [|done].
      apply is_obstacle_true in Ho as [|]; done.
Qed.

(** ** The plan validator *)

(** C8: [checkPlan] returns false exactly when some pose of the path
    converts to a cell whose cost is one of the two impassable values;
    poses that do not convert are skipped, and a path without such a pose
    gives true. *)
Theorem checkPlan_false_iff env plan :
  let cm := getCostmap env in
  let blocked it :=
    exists mx my,
      worldToMap cm (p_x (position (pose it))) (p_y (position (pose it))) = Some (mx, my)
      /\ (getCost cm mx my = costmap_2d.INSCRIBED_INFLATED_OBSTACLE
          \/ getCost cm mx my = costmap_2d.LETHAL_OBSTACLE) in
  (checkPlan env plan = false <-> exists it, In it plan /\ blocked it)
  /\ (checkPlan env plan = true <-> ~ exists it, In it plan /\ blocked it).
Proof.
  intros cm blocked.
  assert (checkPlan env plan = false <-> exists it, In it plan /\ blocked it) as Hiff.
  { induction plan as [|it rest IH]; simpl.
    - split; [done | by intros (? & [] & _)].
    - fold cm.
      destruct (worldToMap cm _ _) as [[mx my]|] eqn:Hw.
      + destruct (is_obstacle (getCost cm mx my)) eqn:Ho.
        * split; [intros _ | done]. exists it. split; [by left|].
          exists mx, my. split; [done|]. by apply is_obstacle_true.
        * rewrite IH. split.
          -- intros (p & Hp & Hb). exists p. split; [by right | done].
          -- intros (p & [<- | Hp] & Hb); [|by exists p].
             destruct Hb as (mx' & my' & Hw' & Hc). rewrite Hw in Hw'.
             injection Hw' as <- <-. apply is_obstacle_true in Hc. congruence.
      + rewrite IH. split.
        * intros (p & Hp & Hb). exists p. split; [by right | done].
        * intros (p & [<- | Hp] & Hb); [|by exists p].
          destruct Hb as (mx' & my' & Hw' & _). congruence. }
  split; [exact Hiff|].
  rewrite <- Hiff. destruct (checkPlan env plan); split; congruence.
Qed.

(** ** The fallback search *)


(** ** The path materializer *)

Lemma uint32_small z : 0 <= z < UINT_MOD -> uint32 z = z.
Proof. apply Z.mod_small. Qed.

Lemma planToWorld_step_other env xs ys tm fr plan i j :
  i <> j -> planToWorld_step env xs ys tm fr plan i !!! j = plan !!! j.
Proof.
  intros Hij. unfold planToWorld_step.
  destruct (mapToWorld _ _ _) as [wx wy].
  destruct (_ <? _); [destruct (mapToWorld _ _ _)|destruct (_ <? _)];
    by rewrite !list_lookup_total_alter_ne.
Qed.




End Properties.

(** * The code at concrete inputs *)

Section Failures.
Context `{Collaborators}.

(** A failed transform lookup in the rebuild: the cache has been cleared
    by then, and the stored constraint is not updated. *)
Lemma updateConstraintPositionsInConstraintFrame_lookup_failure env st pc :
  lookupTransform env (frame pc) (getGlobalFrameID env) = None ->
  updateConstraintPositionsInConstraintFrame env st pc
  = (false, set_goal_positions_in_constraint_frame [] st).
Proof. intros Hl. unfold updateConstraintPositionsInConstraintFrame. by rewrite Hl. Qed.

(** A failed transform lookup in the projection: the loop still runs, with
    the transform as it was declared. *)
Lemma calculateMapConstraintArea_lookup_failure env st mx my goal_positions :
  lookupTransform env (getGlobalFrameID env) (frame (position_constraint_ st)) = None ->
  calculateMapConstraintArea env st mx my goal_positions
  = project_loop (getCostmap env) (uninitialized_transform env)
                 (goal_positions_in_constraint_frame_ st) mx my goal_positions.
Proof.
  intros Hl. unfold calculateMapConstraintArea, world_to_constraint_tf. by rewrite Hl.
Qed.

(** So a call that gets to the rebuild and fails in its lookup returns
    false with the cache emptied and the stored constraint as it was. *)
Lemma makePlan_lookup_failure env st start pc plan goal_positions :
  initialized_ st = true ->
  ~ (frame pc = "" /\ constraint pc = "") ->
  is_Some (worldToMap (getCostmap env) (p_x start) (p_y start)) ->
  pc <> position_constraint_ st ->
  lookupTransform env (frame pc) (getGlobalFrameID env) = None ->
  let o := makePlan env st start pc plan goal_positions in
  ret o = false
  /\ goal_positions_in_constraint_frame_ (state o) = []
  /\ position_constraint_ (state o) = position_constraint_ st.
Proof.
  intros Hinit Hpc [[sx sy] Hstart] Hne Hl. unfold makePlan, refresh_constraint.
  rewrite Hinit, Hstart. simpl.
  destruct (String.eqb (frame pc) "" && String.eqb (constraint pc) "") eqn:He.
  { apply andb_true_iff in He as [Hf Hc]. apply String.eqb_eq in Hf, Hc. by destruct Hpc. }
  rewrite (proj2 (constraintChanged_true st pc) Hne).
  by rewrite updateConstraintPositionsInConstraintFrame_lookup_failure.
Qed.

End Failures.

Module Examples.
Import GridWorld.

(** C1 (the code departs from the claim): the planner holds the region of
    ([beacon], [here]); a call with a constraint in the unknown frame
    [ghost] fails in the rebuild's transform lookup and returns false, but
    the cached region is empty afterwards while the stored constraint is
    still the old one.  The old constraint, which planned before that call,
    no longer plans after it. *)
Theorem makePlan_failed_rebuild_clears_cache :
  let env := env direct in
  let st := at_beacon direct in
  let old := mkConstraint "beacon" "here" in
  let o := makePlan env st (pt 0 0) (mkConstraint "ghost" "here") [] [] in
  lookupTransform env "ghost" (getGlobalFrameID env) = None
  /\ ret o = false
  /\ goal_positions_in_constraint_frame_ st = [pt 0 0]
  /\ goal_positions_in_constraint_frame_ (state o) = []
  /\ position_constraint_ (state o) = old
  /\ ret (makePlan env st (pt 0 0) old [] []) = true
  /\ ret (makePlan env (state o) (pt 0 0) old [] []) = false.
Proof. vm_compute. by repeat split. Qed.

(** C2 (the code departs from the claim): tf has no transform, the cached
    region is not empty, and the projection's lookup fails; the goal cell
    set of the call is nevertheless not empty (the cell the leftover
    transform sends the cached point to), the search is run and the call
    returns true.  A later call with tf restored plans as usual. *)
Theorem makePlan_projects_without_transform :
  let env := env_tf_down direct in
  let st := at_beacon direct in
  let o := makePlan env st (pt 0 0) (mkConstraint "beacon" "here") [] [] in
  lookupTransform env (getGlobalFrameID env) "beacon" = None
  /\ goal_positions_in_constraint_frame_ st = [pt 0 0]
  /\ trace o = [EvProject [1] [3]; EvSearch [1] [3] 0 0 false [0; 1] [0; 3]]
  /\ out_goal_positions o = [pt 1 3]
  /\ ret o = true
  /\ ret (makePlan (GridWorld.env direct) (state o) (pt 0 0)
                   (mkConstraint "beacon" "here") [] []) = true.
Proof. vm_compute. by repeat split. Qed.



(** An empty goal cell set at a concrete input: the only point of the region is on the lethal
    cell, so the goal cell set is empty. *)
Lemma makePlan_empty_goal_set_no_search_witness :
  let o := makePlan (env direct) (fresh direct) (pt 0 0)
                    (mkConstraint "pillar" "here") [] [] in
  ret o = false /\ filter is_search (trace o) = [].
Proof.
  apply (makePlan_empty_goal_set_no_search
           (env direct) (fresh direct) (pt 0 0) (mkConstraint "pillar" "here")
           [] [] []).
  - reflexivity.
  - exists (0, 0). reflexivity.
  - intros [Hf _]. discriminate Hf.
  - vm_compute. auto.
Defined.


(** Two calls with one constraint where tf fails: the frame [ghost] is unknown to tf, so the
    rebuild of the first call fails and the constraint is not stored; the
    second call, with the same constraint in the same world, invokes the
    rebuild again and does not get to the projection. *)
Lemma makePlan_same_constraint_rebuilds_again :
  let c := mkConstraint "ghost" "here" in
  let o1 := makePlan (env direct) (fresh direct) (pt 0 0) c [] [] in
  let o2 := makePlan (env direct) (state o1) (pt 0 0) c [] [] in
  filter is_rebuild (trace o2) = [EvRebuild c false]
  /\ filter is_project (trace o2) = [].
Proof. vm_compute. by split. Qed.

(** Rebuild on change at a concrete input: two calls for ([beacon],
    [here]). *)
Lemma makePlan_rebuild_on_change_witness :
  let c := mkConstraint "beacon" "here" in
  let o := makePlan (env direct) (fresh direct) (pt 0 0) c [] [] in
  let o' := makePlan (env direct) (state o) (pt 1 0) c [] [] in
  (c <> position_constraint_ (fresh direct) ->
   exists ok, filter is_rebuild (trace o) = [EvRebuild c ok])
  /\ filter is_rebuild (trace o') = []
  /\ exists mx my, filter is_project (trace o') = [EvProject mx my].
Proof.
  intros c o o'.
  destruct (makePlan_rebuild_on_change
              (env direct) (fresh direct) (pt 0 0) c [] [])
    as (Hchange & _ & Hnext).
  - reflexivity.
  - intros [Hf _]. discriminate Hf.
  - exists (0, 0). reflexivity.
  - split; [apply Hchange|].
    apply (Hnext (pt 1 0) [] []).
    + exists [2], [2]. vm_compute. auto.
    + exists (1, 0). reflexivity.
Defined.

(** The empty constraint at a concrete input. *)
Lemma makePlan_empty_constraint_noop_witness :
  let o := makePlan (env direct) (at_beacon direct) (pt 0 0) (mkConstraint "" "") [] [] in
  ret o = false
  /\ goal_positions_in_constraint_frame_ (state o) = [pt 0 0]
  /\ position_constraint_ (state o) = mkConstraint "beacon" "here".
Proof.
  apply (makePlan_empty_constraint_noop
           (env direct) (at_beacon direct) (pt 0 0) (mkConstraint "" "") [] []);
    reflexivity.
Defined.




End Examples.

(** * Further properties *)

Section RegionProperties.
Context `{Collaborators}.

Lemma evaluate_cell_spec cm t ce acc i j :
  evaluate_cell cm t ce acc i j
  = acc ++ match (let pc := transform_point t (cell_centre cm (i, j)) in
                  if ce_evaluate ce (p_x pc) (p_y pc) then Some pc else None) with
           | Some pc => [pc]
           | None => []
           end.
Proof.
  unfold evaluate_cell, cell_centre. simpl.
  destruct (mapToWorld cm i j) as [wx wy]. simpl.
  destruct (ce_evaluate ce _ _); [done | by rewrite app_nil_r].
Qed.

Lemma evaluate_row_spec cm t ce i js : forall acc,
  fold_left (fun acc j => evaluate_cell cm t ce acc i j) js acc
  = acc ++ omap (fun c => let pc := transform_point t (cell_centre cm c) in
                          if ce_evaluate ce (p_x pc) (p_y pc) then Some pc else None)
                (map (fun j => (i, j)) js).
Proof.
  induction js as [|j js IH]; intros acc; simpl; [by rewrite app_nil_r|].
  rewrite IH, evaluate_cell_spec. simpl.
  destruct (ce_evaluate ce _ _); by rewrite <- app_assoc.
Qed.

Lemma evaluate_sweep_spec cm t ce js rows : forall acc,
  fold_left (fun acc i =>
               fold_left (fun acc j => evaluate_cell cm t ce acc i j) js acc)
            rows acc
  = acc ++ omap (fun c => let pc := transform_point t (cell_centre cm c) in
                          if ce_evaluate ce (p_x pc) (p_y pc) then Some pc else None)
                (flat_map (fun i => map (fun j => (i, j)) js) rows).
Proof.
  induction rows as [|i rows IH]; intros acc; simpl; [by rewrite app_nil_r|].
  rewrite IH, evaluate_row_spec, omap_app. by rewrite <- app_assoc.
Qed.

Lemma sweep_cells_In cm i j :
  In (i, j) (sweep_cells cm)
  <-> 0 <= i < getSizeInCellsX cm /\ 0 <= j < getSizeInCellsY cm.
Proof.
  unfold sweep_cells, counter_range. rewrite in_flat_map. split.
  - intros (i' & Hi & Hj). apply in_map_iff in Hj as (j' & [= <- <-] & Hj).
    apply list_elem_of_In, elem_of_seqZ in Hi, Hj. lia.
  - intros [Hi Hj]. exists i. split.
    + apply list_elem_of_In, elem_of_seqZ. lia.
    + apply in_map_iff. exists j. split; [done|].
      apply list_elem_of_In, elem_of_seqZ. lia.
Qed.

Lemma rebuild_success env st pc t ce :
  lookupTransform env (frame pc) (getGlobalFrameID env) = Some t ->
  ce_init (constraint pc) = Some ce ->
  updateConstraintPositionsInConstraintFrame env st pc
  = (true, set_goal_positions_in_constraint_frame
             (region_spec (getCostmap env) t ce) st).
Proof.
  intros Hl Hc. unfold updateConstraintPositionsInConstraintFrame.
  rewrite Hl, Hc. simpl. by rewrite evaluate_sweep_spec.
Qed.

(** X1: when the transform lookup and the evaluator's [init] both
    succeed, the rebuild returns true and replaces the cached region,
    whatever it held, by the points of the sweep: exactly the centres of
    the cells of the grid, taken to the constraint frame, that the
    evaluator accepts, in the order [i] outside, [j] inside. *)
Theorem updateConstraintPositionsInConstraintFrame_region env st pc t ce :
  lookupTransform env (frame pc) (getGlobalFrameID env) = Some t ->
  ce_init (constraint pc) = Some ce ->
  let cm := getCostmap env in
  let r := updateConstraintPositionsInConstraintFrame env st pc in
  fst r = true
  /\ goal_positions_in_constraint_frame_ (snd r) = region_spec cm t ce
  /\ forall p,
      In p (goal_positions_in_constraint_frame_ (snd r)) <->
      exists i j, 0 <= i < getSizeInCellsX cm
                  /\ 0 <= j < getSizeInCellsY cm
                  /\ p = transform_point t (cell_centre cm (i, j))
                  /\ ce_evaluate ce (p_x p) (p_y p) = true.
Proof.
  intros Hl Hc cm r. subst r. rewrite (rebuild_success env st pc t ce Hl Hc). simpl.
  split; [done|]. split; [done|].
  intros p. unfold region_spec. rewrite <- list_elem_of_In, list_elem_of_omap. split.
  - intros ([i j] & Hin & Hp). apply list_elem_of_In, sweep_cells_In in Hin.
    simpl in Hp. destruct (ce_evaluate ce _ _) eqn:He; [|done].
    injection Hp as <-. exists i, j. fold cm. tauto.
  - intros (i & j & Hi & Hj & -> & He). exists (i, j). split.
    + apply list_elem_of_In, sweep_cells_In. done.
    + simpl. fold cm. by rewrite He.
Qed.

(** X2: the rebuild returns true exactly when the transform lookup and the
    evaluator's [init] both succeed; when it returns false the cached
    region is empty afterwards; in every case [initialized_], [planner_]
    and the stored constraint are as they were. *)
Theorem updateConstraintPositionsInConstraintFrame_failure env st pc :
  let r := updateConstraintPositionsInConstraintFrame env st pc in
  (fst r = true <->
   is_Some (lookupTransform env (frame pc) (getGlobalFrameID env))
   /\ is_Some (ce_init (constraint pc)))
  /\ (fst r = false -> goal_positions_in_constraint_frame_ (snd r) = [])
  /\ initialized_ (snd r) = initialized_ st
  /\ planner_ (snd r) = planner_ st
  /\ position_constraint_ (snd r) = position_constraint_ st.
Proof.
  intros r. subst r. unfold updateConstraintPositionsInConstraintFrame.
  destruct (lookupTransform _ _ _) as [t|]; [destruct (ce_init _) as [ce|]|]; simpl;
    (split; [split; [intros Ht | intros [[? Hl] [? Hc]]]; try done; eauto|]);
    by repeat split.
Qed.

End RegionProperties.

Section ProjectionProperties.
Context `{Collaborators}.

Lemma projectToGrid_spec_length cm t region :
  (length (projectToGrid_spec cm t region) <= length region)%nat.
Proof.
  unfold projectToGrid_spec. induction region as [|p region IH]; [done|].
  cbn [omap list_omap]. destruct (retained cm t p); cbn [length]; lia.
Qed.

Lemma projectToGrid_spec_free cm t region x y pw :
  In (x, y, pw) (projectToGrid_spec cm t region) ->
  worldToMap cm (p_x pw) (p_y pw) = Some (x, y)
  /\ is_obstacle (getCost cm x y) = false.
Proof.
  unfold projectToGrid_spec. rewrite <- list_elem_of_In, list_elem_of_omap.
  intros (p & _ & Hk). unfold retained in Hk.
  destruct (worldToMap cm _ _) as [[x' y']|] eqn:Hw; [|done].
  destruct (is_obstacle (getCost cm x' y')) eqn:Ho; [done|].
  by injection Hk as -> -> <-.
Qed.

Lemma project_region_spec cm t t' ce cells :
  (forall c, In c cells ->
     transform_point t' (transform_point t (cell_centre cm c)) = cell_centre cm c) ->
  (forall c, In c cells ->
     worldToMap cm (p_x (cell_centre cm c)) (p_y (cell_centre cm c)) = Some c) ->
  projectToGrid_spec cm t'
    (omap (fun c => let pc := transform_point t (cell_centre cm c) in
                    if ce_evaluate ce (p_x pc) (p_y pc) then Some pc else None)
          cells)
  = map (fun c => (fst c, snd c, cell_centre cm c))
        (List.filter (goal_cell cm t ce) cells).
Proof.
  unfold projectToGrid_spec.
  induction cells as [|c cells IH]; intros Hinv Hmap; [done|].
  specialize (IH (fun c' Hc' => Hinv c' (or_intror Hc'))
                 (fun c' Hc' => Hmap c' (or_intror Hc'))).
  pose proof (Hinv c (or_introl eq_refl)) as Hc.
  pose proof (Hmap c (or_introl eq_refl)) as Hw.
  cbn [omap list_omap List.filter]. unfold goal_cell at 1. cbn zeta.
  destruct (ce_evaluate ce _ _); cbn [andb]; [|exact IH].
  cbn [omap list_omap]. unfold retained at 1. cbn zeta.
  rewrite Hc, Hw. destruct c as [x y]. cbn [fst snd].
  destruct (is_obstacle (getCost cm x y)); cbn [negb map]; [exact IH|].
  by rewrite <- IH.
Qed.

(** X3: the goal cell set on a fresh region.  On a call that passes the
    precondition checks with a changed constraint, when both transform
    lookups and the evaluator's [init] succeed, the second transform takes
    the first back on the cell centres and [worldToMap] takes every cell
    centre back to its cell, the projection hands on exactly the cells of
    the grid whose centre satisfies the constraint in the constraint frame
    and whose cost is not impassable, in sweep order, and the goal
    positions are the centres of those cells. *)
Theorem makePlan_goal_cells env st start pc plan goal_positions t t' ce :
  initialized_ st = true ->
  ~ (frame pc = "" /\ constraint pc = "") ->
  is_Some (worldToMap (getCostmap env) (p_x start) (p_y start)) ->
  pc <> position_constraint_ st ->
  lookupTransform env (frame pc) (getGlobalFrameID env) = Some t ->
  lookupTransform env (getGlobalFrameID env) (frame pc) = Some t' ->
  ce_init (constraint pc) = Some ce ->
  let cm := getCostmap env in
  (forall c, In c (sweep_cells cm) ->
     transform_point t' (transform_point t (cell_centre cm c)) = cell_centre cm c) ->
  (forall c, In c (sweep_cells cm) ->
     worldToMap cm (p_x (cell_centre cm c)) (p_y (cell_centre cm c)) = Some c) ->
  let goals := List.filter (goal_cell cm t ce) (sweep_cells cm) in
  let o := makePlan env st start pc plan goal_positions in
  filter is_project (trace o) = [EvProject (map fst goals) (map snd goals)]
  /\ out_goal_positions o = map (cell_centre cm) goals.
Proof.
  intros Hinit Hpc Hstart Hne Hl Hl' Hc cm Hinv Hmap goals o.
  assert (forall st1 mx my gp,
            refresh_run env st pc (Some st1, st1, [EvRebuild pc true]) ->
            calculateMapConstraintArea env st1 [] [] [] = (mx, my, gp) ->
            mx = map fst goals /\ my = map snd goals /\ gp = map (cell_centre cm) goals)
    as Hproj.
  { intros st1 mx my gp Hr Hp.
    inversion Hr as [ | st2 _ Hu | ]; subst.
    rewrite (rebuild_success env st pc t ce Hl Hc) in Hu. injection Hu as <-.
    unfold calculateMapConstraintArea, world_to_constraint_tf in Hp. simpl in Hp.
    rewrite Hl', project_loop_spec in Hp. fold cm in Hp.
    unfold region_spec in Hp. rewrite (project_region_spec cm t t' ce) in Hp by done.
    fold goals in Hp. rewrite !map_map in Hp. simpl in Hp.
    by injection Hp as <- <- <-. }
  assert (forall r st1 tr, refresh_run env st pc (r, st1, tr) ->
                           r = Some st1 /\ tr = [EvRebuild pc true]) as Hrr.
  { intros r st1 tr Hr. inversion Hr as [ | st2 _ Hu | st2 _ Hu ]; subst; try done.
    rewrite (rebuild_success env st pc t ce Hl Hc) in Hu. discriminate. }
  subst o.
  destruct (makePlan_runs env st start pc plan goal_positions)
    as [Hu | _ He | _ _ Hs | sx sy st1 tr _ _ _ Hr | sx sy st1 tr my' gp _ _ _ Hr Hp
        | sx sy st1 tr mx' my' gp p xs ys trs _ _ _ Hr Hp Hmx Hs];
    simpl; try congruence; try done.
  - rewrite Hs in Hstart. by destruct Hstart.
  - by destruct (Hrr _ _ _ Hr).
  - destruct (Hrr _ _ _ Hr) as [_ ->].
    destruct (Hproj _ _ _ _ Hr Hp) as (Hx & -> & ->). by rewrite <- Hx.
  - destruct (Hrr _ _ _ Hr) as [_ ->].
    destruct (Hproj _ _ _ _ Hr Hp) as (-> & -> & ->).
    apply search_run_no_rebuild in Hs as [_ Hs].
    by rewrite !filter_app, Hs.
Qed.

(** X4: the projection appends the same number of entries to its three
    vectors, at most one for each point of the cached region; on an empty
    region it leaves them as they were. *)
Theorem calculateMapConstraintArea_sizes env st mx my goal_positions :
  let r := calculateMapConstraintArea env st mx my goal_positions in
  exists k,
    (k <= length (goal_positions_in_constraint_frame_ st))%nat
    /\ length (fst (fst r)) = (length mx + k)%nat
    /\ length (snd (fst r)) = (length my + k)%nat
    /\ length (snd r) = (length goal_positions + k)%nat
    /\ (goal_positions_in_constraint_frame_ st = [] -> r = (mx, my, goal_positions)).
Proof.
  intros r. subst r. unfold calculateMapConstraintArea. rewrite project_loop_spec.
  exists (length (projectToGrid_spec (getCostmap env) (world_to_constraint_tf env st)
                                     (goal_positions_in_constraint_frame_ st))).
  simpl. rewrite !length_app, !length_map.
  split; [apply projectToGrid_spec_length|]. repeat split; try done.
  intros ->. simpl. by rewrite !app_nil_r.
Qed.

(** X5: every goal position an initialized call hands back converts to a
    cell of the current grid whose cost is neither impassable value. *)
Theorem makePlan_goal_positions_free env st start pc plan goal_positions pw :
  initialized_ st = true ->
  let o := makePlan env st start pc plan goal_positions in
  In pw (out_goal_positions o) ->
  exists x y,
    worldToMap (getCostmap env) (p_x pw) (p_y pw) = Some (x, y)
    /\ getCost (getCostmap env) x y <> costmap_2d.INSCRIBED_INFLATED_OBSTACLE
    /\ getCost (getCostmap env) x y <> costmap_2d.LETHAL_OBSTACLE.
Proof.
  intros Hinit o. subst o.
  assert (forall st1 mx my gp,
            calculateMapConstraintArea env st1 [] [] [] = (mx, my, gp) ->
            In pw gp ->
            exists x y,
              worldToMap (getCostmap env) (p_x pw) (p_y pw) = Some (x, y)
              /\ getCost (getCostmap env) x y <> costmap_2d.INSCRIBED_INFLATED_OBSTACLE
              /\ getCost (getCostmap env) x y <> costmap_2d.LETHAL_OBSTACLE) as Hfree.
  { intros st1 mx my gp Hp Hin.
    unfold calculateMapConstraintArea in Hp. rewrite project_loop_spec in Hp.
    simpl in Hp. injection Hp as _ _ <-.
    apply in_map_iff in Hin as ([[x y] pw'] & Heq & Hin). simpl in Heq. subst pw'.
    apply projectToGrid_spec_free in Hin as [Hw Ho].
    exists x, y. split; [done|].
    split; intros Hcost; rewrite (proj2 (is_obstacle_true _)) in Ho by auto; done. }
  destruct (makePlan_runs env st start pc plan goal_positions)
    as [Hu | | | sx sy st1 tr _ _ _ Hr | sx sy st1 tr my' gp _ _ _ Hr Hp
        | sx sy st1 tr mx' my' gp p xs ys trs _ _ _ Hr Hp Hmx Hs];
    simpl; try congruence; try done; eauto.
Qed.

End ProjectionProperties.

Section CallProperties.
Context `{Collaborators}.

Lemma refresh_run_state env st pc r st1 tr :
  refresh_run env st pc (r, st1, tr) ->
  (tr = [] /\ st1 = st)
  \/ (tr = [EvRebuild pc true] /\ r = Some st1 /\ position_constraint_ st1 = pc)
  \/ (tr = [EvRebuild pc false] /\ r = None
      /\ position_constraint_ st1 = position_constraint_ st).
Proof.
  inversion 1 as [Heq | st2 Hne Hu | st2 Hne Hu]; subst; simpl; auto.
  right. right.
  by apply updateConstraintPositionsInConstraintFrame_frame in Hu as (_ & _ & ->).
Qed.

(** X6: a call that returns true was made on an initialized planner with a
    constraint that is not the empty one and a start on the grid; it leaves
    the constraint stored, a plan that is not empty, and as many goal
    positions as the (non-empty) goal cell set of its projection. *)
Theorem makePlan_success env st start pc plan goal_positions :
  let o := makePlan env st start pc plan goal_positions in
  ret o = true ->
  initialized_ st = true
  /\ ~ (frame pc = "" /\ constraint pc = "")
  /\ is_Some (worldToMap (getCostmap env) (p_x start) (p_y start))
  /\ position_constraint_ (state o) = pc
  /\ out_plan o <> []
  /\ exists mx my,
      In (EvProject mx my) (trace o)
      /\ mx <> []
      /\ length my = length mx
      /\ length (out_goal_positions o) = length mx.
Proof.
  intros o. subst o.
  destruct (makePlan_runs env st start pc plan goal_positions)
    as [Hu | | | sx sy st1 tr _ _ _ Hr | sx sy st1 tr my' gp _ _ _ Hr Hp
        | sx sy st1 tr mx' my' gp p xs ys trs Hi He Hstart Hr Hp Hmx Hs];
    simpl; try done.
  intros Hret. apply negb_true_iff, bool_decide_eq_false in Hret.
  split; [done|]. split; [done|]. split; [by rewrite Hstart|].
  split; [by apply (refresh_run_frame _ _ _ _ _ _ Hr)|].
  split; [by rewrite planToWorld_nil|].
  apply calculateMapConstraintArea_lengths in Hp as [Hy Hg].
  exists mx', my'. rewrite !in_app_iff. simpl. auto 10.
Qed.

(** X7: a call never changes [initialized_]; the stored constraint after
    it is the one stored before or, after a successful rebuild, the
    constraint of the call; and a call that did not run the rebuild leaves
    the cached region and the stored constraint as they were. *)
Theorem makePlan_state_frame env st start pc plan goal_positions :
  let o := makePlan env st start pc plan goal_positions in
  initialized_ (state o) = initialized_ st
  /\ (position_constraint_ (state o) = position_constraint_ st
      \/ (position_constraint_ (state o) = pc /\ In (EvRebuild pc true) (trace o)))
  /\ (filter is_rebuild (trace o) = [] ->
      goal_positions_in_constraint_frame_ (state o)
      = goal_positions_in_constraint_frame_ st
      /\ position_constraint_ (state o) = position_constraint_ st).
Proof.
  intros o. subst o.
  destruct (makePlan_runs env st start pc plan goal_positions)
    as [Hu | | | sx sy st1 tr _ _ _ Hr | sx sy st1 tr my' gp _ _ _ Hr Hp
        | sx sy st1 tr mx' my' gp p xs ys trs Hi He Hstart Hr Hp Hmx Hs];
    simpl; auto;
    pose proof (refresh_run_frame _ _ _ _ _ _ Hr) as [Hinit _];
    apply refresh_run_state in Hr
      as [[-> ->] | [(-> & _ & Hc) | (-> & _ & Hc)]];
    rewrite ?filter_app, ?in_app_iff; simpl;
    (split; [done|]); (split; [auto 10|]); done.
Qed.

(** X8: a call that fails one of the three precondition checks (not
    initialized, the empty constraint, start off the grid) returns false,
    leaves the object as it was and calls neither the rebuild, nor the
    projection, nor the search. *)
Theorem makePlan_precondition_failure env st start pc plan goal_positions :
  initialized_ st = false
  \/ (frame pc = "" /\ constraint pc = "")
  \/ worldToMap (getCostmap env) (p_x start) (p_y start) = None ->
  let o := makePlan env st start pc plan goal_positions in
  ret o = false /\ state o = st /\ trace o = [].
Proof.
  intros Hpre o. subst o.
  destruct (makePlan_runs env st start pc plan goal_positions)
    as [Hu | | | sx sy st1 tr Hi He Hstart Hr | sx sy st1 tr my' gp Hi He Hstart Hr Hp
        | sx sy st1 tr mx' my' gp p xs ys trs Hi He Hstart Hr Hp Hmx Hs];
    simpl; try done;
    destruct Hpre as [Hpre | [Hpre | Hpre]]; congruence || done.
Qed.

(** X9: when the forward search of a call hands back a non-empty list of
    xs, it was given the projected goal cells and the cell of the start,
    no second search is made, the plan is the materialized result of that
    search, and the call returns true. *)
Theorem makePlan_forward_path env st start pc plan goal_positions
    mx_goal my_goal mx_start my_start xs ys :
  let o := makePlan env st start pc plan goal_positions in
  In (EvSearch mx_goal my_goal mx_start my_start false xs ys) (trace o) ->
  xs <> [] ->
  worldToMap (getCostmap env) (p_x start) (p_y start) = Some (mx_start, my_start)
  /\ In (EvProject mx_goal my_goal) (trace o)
  /\ filter is_search (trace o)
     = [EvSearch mx_goal my_goal mx_start my_start false xs ys]
  /\ out_plan o = planToWorld env xs ys []
  /\ ret o = true.
Proof.
  intros o. subst o.
  destruct (makePlan_runs env st start pc plan goal_positions)
    as [Hu | | | sx sy st1 tr _ _ _ Hr | sx sy st1 tr my' gp _ _ _ Hr Hp
        | sx sy st1 tr mx' my' gp p xs' ys' trs _ _ Hstart Hr Hp Hmx Hs];
    simpl; try done.
  - intros Hin. apply refresh_run_trace in Hr as [-> | [ok ->]]; simpl in Hin;
      intuition discriminate.
  - intros Hin. rewrite in_app_iff in Hin. simpl in Hin.
    apply refresh_run_trace in Hr as [-> | [ok ->]]; simpl in Hin;
      intuition discriminate.
  - intros Hin Hxs.
    pose proof (refresh_trace_no_search _ _ _ _ _ _ Hr) as Hns.
    assert (In (EvSearch mx_goal my_goal mx_start my_start false xs ys) trs) as Hin'.
    { rewrite !in_app_iff in Hin. simpl in Hin.
      destruct Hin as [[Hin | [Hin | []]] | Hin]; [| discriminate | done].
      apply refresh_run_trace in Hr as [-> | [ok ->]]; simpl in Hin;
        intuition discriminate. }
    clear Hin. rewrite !filter_app, Hns. simpl.
    inversion Hs as [p1 xs1 ys1 Hf Hne | p1 ys1 p2 xs2 ys2 Hf Hb]; subst; simpl in Hin'.
    + destruct Hin' as [[= -> -> -> -> -> ->] | []].
      rewrite !in_app_iff. simpl.
      rewrite bool_decide_eq_false_2 by done. auto 10.
    + destruct Hin' as [[= _ _ _ _ <- _] | [Hin' | []]]; [done | discriminate].
Qed.

(** X10: the calls a [makePlan] makes, in order: at most one rebuild (of
    the constraint of the call), then at most one projection, then at most
    two searches; nothing follows a failed rebuild, and no search is made
    without a projection. *)
Theorem makePlan_trace_shape env st start pc plan goal_positions :
  let o := makePlan env st start pc plan goal_positions in
  exists r p s,
    trace o = r ++ p ++ s
    /\ (r = [] \/ exists ok, r = [EvRebuild pc ok])
    /\ (p = [] \/ exists mx my, p = [EvProject mx my])
    /\ Forall (fun e => is_search e = true) s
    /\ (length s <= 2)%nat
    /\ (p = [] -> s = [])
    /\ (r = [EvRebuild pc false] -> p = []).
Proof.
  intros o. subst o.
  destruct (makePlan_runs env st start pc plan goal_positions)
    as [Hu | | | sx sy st1 tr _ _ _ Hr | sx sy st1 tr my' gp _ _ _ Hr Hp
        | sx sy st1 tr mx' my' gp p xs ys trs Hi He Hstart Hr Hp Hmx Hs];
    simpl.
  1-3: by exists [], [], []; repeat split; auto; simpl; lia.
  - exists tr, [], []. rewrite app_nil_r.
    apply refresh_run_trace in Hr. repeat split; auto; simpl; lia.
  - exists tr, [EvProject [] my'], []. rewrite app_nil_r.
    apply refresh_run_state in Hr as [[-> ->] | [(-> & _ & _) | (-> & ? & _)]];
      repeat split; eauto; simpl; try lia; try done.
  - exists tr, [EvProject mx' my'], trs. rewrite <- app_assoc.
    pose proof (search_run_trace _ _ _ _ _ _ _ _ Hs) as Hall.
    assert (length trs <= 2)%nat by (inversion Hs; simpl; lia).
    apply refresh_run_state in Hr as [[-> ->] | [(-> & _ & _) | (-> & ? & _)]];
      repeat split; eauto; try done.
Qed.


End CallProperties.

Section PathProperties.
Context `{Collaborators}.

Lemma planToWorld_step_at env xs ys tm fr plan i :
  Z.of_nat (length xs) + lookahead <= UINT_MOD ->
  (i < length xs)%nat ->
  (i < length plan)%nat ->
  let r := planToWorld_step env xs ys tm fr plan i in
  let n := length xs in
  header (r !!! i) = mkHeader (h_seq (header (plan !!! i))) tm fr
  /\ position (pose (r !!! i))
     = mkPoint (fst (cell_world env xs ys i)) (snd (cell_world env xs ys i)) d_zero
  /\ ((i + 5 < n)%nat -> orientation (pose (r !!! i)) = heading env xs ys i)
  /\ ((n <= i + 5)%nat -> (5 < n)%nat ->
      orientation (pose (r !!! i)) = orientation (pose (plan !!! (i - 1)%nat)))
  /\ ((n <= 5)%nat -> orientation (pose (r !!! i)) = orientation (pose (plan !!! i))).
Proof.
  intros Hn Hi Hlen. cbv zeta. unfold lookahead, UINT_MOD in Hn.
  unfold heading, cell_world, planToWorld_step, lookahead.
  destruct (mapToWorld (getCostmap env) (uint32 (xs !!! i)) (uint32 (ys !!! i)))
    as [wx wy] eqn:Hw.
  rewrite (uint32_small (Z.of_nat i + 5)) by (unfold UINT_MOD; lia).
  replace (Z.to_nat (Z.of_nat i + 5)) with (i + 5)%nat by lia.
  set (plan5 := alter (set_position_z d_zero) i _).
  assert (length plan5 = length plan) as Hlen5 by (subst plan5; by rewrite !length_alter).
  assert (plan5 !!! i
          = set_position_z d_zero
              (set_position_y wy
                 (set_position_x wx
                    (set_frame_id fr (set_stamp tm (plan !!! i)))))) as H5.
  { subst plan5. by rewrite !list_lookup_total_alter_eq by (by rewrite ?length_alter). }
  assert (forall j, j <> i -> plan5 !!! j = plan !!! j) as Hother.
  { intros j Hj. subst plan5. by rewrite !list_lookup_total_alter_ne. }
  destruct (Z.of_nat i + 5 <? Z.of_nat (length xs)) eqn:Hahead.
  - apply Z.ltb_lt in Hahead.
    destruct (mapToWorld _ (uint32 (xs !!! (i + 5)%nat)) _) as [ax ay] eqn:Ha.
    rewrite list_lookup_total_alter_eq by lia.
    rewrite H5. simpl. repeat split; try done; intros; lia.
  - apply Z.ltb_ge in Hahead.
    destruct (5 <? Z.of_nat (length xs)) eqn:Hlong.
    + apply Z.ltb_lt in Hlong.
      rewrite (uint32_small (Z.of_nat i - 1)) by (unfold UINT_MOD; lia).
      replace (Z.to_nat (Z.of_nat i - 1)) with (i - 1)%nat by lia.
      rewrite list_lookup_total_alter_eq by lia.
      rewrite (Hother (i - 1)%nat) by lia.
      rewrite H5. simpl. repeat split; try done; intros; lia.
    + apply Z.ltb_ge in Hlong.
      rewrite H5. simpl. repeat split; try done; intros; lia.
Qed.

Lemma planToWorld_loop_from env xs ys before k :
  Z.of_nat (length xs) + lookahead <= UINT_MOD ->
  length before = length xs ->
  (k <= length xs)%nat ->
  let plan := fold_left (planToWorld_step env xs ys (now env) (getGlobalFrameID env))
                        (seq 0 k) before in
  (forall i, (i < k)%nat -> pose_written env xs ys before plan i)
  /\ (forall i, (k <= i)%nat -> plan !!! i = before !!! i).
Proof.
  intros Hn Hbefore. induction k as [|k IH]; intros Hk plan.
  - split; [intros; lia | done].
  - subst plan. rewrite seq_S, fold_left_app. simpl.
    destruct IH as [Hdone Htodo]; [lia|].
    set (plan := fold_left _ (seq 0 k) _) in *.
    assert (length plan = length xs) as Hlen.
    { subst plan. by rewrite planToWorld_fold_length. }
    split.
    + intros i Hi. destruct (decide (i = k)) as [->|Hne].
      * destruct (planToWorld_step_at env xs ys (now env) (getGlobalFrameID env)
                    plan k Hn ltac:(lia) ltac:(lia)) as (Hh & Hp & Ha & Hb & Hc).
        unfold pose_written. rewrite <- (Htodo k) by lia.
        split; [done|]. split; [done|]. split; [done|]. split; [|done].
        intros H1 H2. rewrite (planToWorld_step_other _ _ _ _ _ _ k (k - 1)%nat) by lia.
        by apply Hb.
      * destruct (Hdone i ltac:(lia)) as (Hh & Hp & Ha & Hb & Hc).
        unfold pose_written.
        rewrite !(planToWorld_step_other _ _ _ _ _ _ k) by lia.
        done.
    + intros i Hki. rewrite planToWorld_step_other by lia. apply Htodo; lia.
Qed.

Lemma planToWorld_written env xs ys plan0 i :
  Z.of_nat (length xs) + lookahead <= UINT_MOD ->
  (i < length xs)%nat ->
  pose_written env xs ys (resize (length xs) PoseStamped_default plan0)
               (planToWorld env xs ys plan0) i.
Proof.
  intros Hn Hi. unfold planToWorld.
  destruct (planToWorld_loop_from env xs ys
              (resize (length xs) PoseStamped_default plan0) (length xs) Hn
              ltac:(by rewrite length_resize) ltac:(lia)) as [Hdone _].
  exact (Hdone i Hi).
Qed.

(** X12: whatever the vector handed to [planToWorld] holds, the result has
    one pose per cell and slot [i] gets the planning time, the global frame
    id and the world position of cell [i] at height 0; its orientation is
    the heading towards cell [i+5] when that cell exists, else the
    orientation of slot [i-1] when the path has more than 5 cells, else
    what the resized vector held in slot [i].  Only the sequence number
    and, on short paths, the orientation survive from the old contents. *)
Theorem planToWorld_overwrites env plan_xs plan_ys plan0 i :
  let n := length plan_xs in
  let before := resize n PoseStamped_default plan0 in
  let plan := planToWorld env plan_xs plan_ys plan0 in
  Z.of_nat n + lookahead <= UINT_MOD ->
  (i < n)%nat ->
  length plan = n
  /\ header (plan !!! i)
     = mkHeader (h_seq (header (before !!! i))) (now env) (getGlobalFrameID env)
  /\ position (pose (plan !!! i))
     = mkPoint (fst (cell_world env plan_xs plan_ys i))
               (snd (cell_world env plan_xs plan_ys i)) d_zero
  /\ ((i + 5 < n)%nat ->
      orientation (pose (plan !!! i)) = heading env plan_xs plan_ys i)
  /\ ((n <= i + 5)%nat -> (5 < n)%nat ->
      orientation (pose (plan !!! i)) = orientation (pose (plan !!! (i - 1)%nat)))
  /\ ((n <= 5)%nat ->
      orientation (pose (plan !!! i)) = orientation (pose (before !!! i))).
Proof.
  intros n before plan Hn Hi. split; [apply planToWorld_length|].
  exact (planToWorld_written env plan_xs plan_ys plan0 i Hn Hi).
Qed.

(** X13: on a path of more than 5 cells the last five poses all carry the
    heading computed for the cell six from the end, the last one that has
    a cell five further on. *)
Theorem planToWorld_tail_heading env plan_xs plan_ys plan0 i :
  let n := length plan_xs in
  let plan := planToWorld env plan_xs plan_ys plan0 in
  Z.of_nat n + lookahead <= UINT_MOD ->
  (5 < n)%nat ->
  (n - 5 <= i)%nat ->
  (i < n)%nat ->
  orientation (pose (plan !!! i)) = heading env plan_xs plan_ys (n - 6).
Proof.
  intros n plan Hn Hlong Hlo Hhi.
  assert (forall d, (d <= 5)%nat ->
            orientation (pose (plan !!! (n - 6 + d)%nat))
            = heading env plan_xs plan_ys (n - 6)) as Hd.
  { induction d as [|d IH]; intros Hd5.
    - replace (n - 6 + 0)%nat with (n - 6)%nat by lia.
      destruct (planToWorld_written env plan_xs plan_ys plan0 (n - 6)%nat Hn
                  ltac:(lia)) as (_ & _ & Ha & _).
      apply Ha. fold n. lia.
    - destruct (planToWorld_written env plan_xs plan_ys plan0 (n - 6 + S d)%nat Hn
                  ltac:(fold n; lia)) as (_ & _ & _ & Hb & _).
      fold plan n in Hb. rewrite Hb by lia.
      replace (n - 6 + S d - 1)%nat with (n - 6 + d)%nat by lia.
      apply IH. lia. }
  replace i with (n - 6 + (i - (n - 6)))%nat by lia. apply Hd. lia.
Qed.

Lemma checkPlan_forallb env plan :
  checkPlan env plan = forallb (pose_passes env) plan.
Proof.
  induction plan as [|it rest IH]; simpl; [done|].
  unfold pose_passes at 1.
  destruct (worldToMap _ _ _) as [[mx my]|]; [|exact IH].
  destruct (is_obstacle _); simpl; [done | exact IH].
Qed.

(** X14: [checkPlan] accepts the empty path, and accepts a path made of two
    pieces exactly when it accepts both: a plan is valid when each of its
    poses passes on its own, so every piece of a valid plan is valid. *)
Theorem checkPlan_app env plan1 plan2 :
  checkPlan env [] = true
  /\ checkPlan env (plan1 ++ plan2) = checkPlan env plan1 && checkPlan env plan2
  /\ (checkPlan env (plan1 ++ plan2) = true <->
      forall it, In it (plan1 ++ plan2) -> pose_passes env it = true).
Proof.
  split; [done|]. rewrite !checkPlan_forallb. split; [apply forallb_app|].
  apply forallb_forall.
Qed.

(** X15: materialize, then validate.  When [worldToMap] takes the world
    point of every cell of a cell path back to that cell, [checkPlan]
    accepts the plan [planToWorld] makes of the path exactly when no cell
    of the path has an impassable cost. *)
Theorem checkPlan_planToWorld env plan_xs plan_ys plan0 :
  let cm := getCostmap env in
  let n := length plan_xs in
  Z.of_nat n + lookahead <= UINT_MOD ->
  (forall i, (i < n)%nat ->
     worldToMap cm (fst (cell_world env plan_xs plan_ys i))
                   (snd (cell_world env plan_xs plan_ys i))
     = Some (uint32 (plan_xs !!! i), uint32 (plan_ys !!! i))) ->
  checkPlan env (planToWorld env plan_xs plan_ys plan0) = true
  <-> forall i, (i < n)%nat ->
        is_obstacle (getCost cm (uint32 (plan_xs !!! i)) (uint32 (plan_ys !!! i)))
        = false.
Proof.
  intros cm n Hn Hround.
  assert (forall i, (i < n)%nat ->
            pose_passes env (planToWorld env plan_xs plan_ys plan0 !!! i)
            = negb (is_obstacle (getCost cm (uint32 (plan_xs !!! i))
                                         (uint32 (plan_ys !!! i))))) as Hpass.
  { intros i Hi.
    destruct (planToWorld_written env plan_xs plan_ys plan0 i Hn Hi) as (_ & Hp & _).
    unfold pose_passes. rewrite Hp. simpl. fold cm. by rewrite Hround. }
  pose proof (planToWorld_length env plan_xs plan_ys plan0) as Hlen. fold n in Hlen.
  rewrite checkPlan_forallb, forallb_forall. split.
  - intros Hall i Hi. apply negb_true_iff. rewrite <- Hpass by done.
    apply Hall, list_elem_of_In, list_elem_of_lookup_total_2. lia.
  - intros Hfree it Hin.
    apply list_elem_of_In, list_elem_of_lookup_total in Hin as (i & Hi & <-).
    rewrite Hpass by lia. apply negb_true_iff, Hfree. lia.
Qed.

End PathProperties.

Section StaleRegion.
Context `{Collaborators}.

Lemma rebuild_false env st pc st1 :
  updateConstraintPositionsInConstraintFrame env st pc = (false, st1) ->
  st1 = set_goal_positions_in_constraint_frame [] st.
Proof.
  unfold updateConstraintPositionsInConstraintFrame.
  destruct (lookupTransform _ _ _); [destruct (ce_init _)|]; by intros [= <-].
Qed.

Lemma rebuild_fails env st pc :
  lookupTransform env (frame pc) (getGlobalFrameID env) = None
  \/ ce_init (constraint pc) = None ->
  fst (updateConstraintPositionsInConstraintFrame env st pc) = false.
Proof.
  unfold updateConstraintPositionsInConstraintFrame.
  intros [Hl | Hc].
  - by rewrite Hl.
  - rewrite Hc. by destruct (lookupTransform _ _ _).
Qed.

(** X16: a call that passes the precondition checks with a changed
    constraint and whose rebuild fails (the transform lookup throws or the
    evaluator's [init] returns false) returns false with the cached region
    emptied and the stored constraint as it was.  The next call for the
    stored constraint, in whatever world, therefore does not rebuild, finds
    no goal cell and returns false without a search. *)
Theorem makePlan_failed_rebuild_then_stored env st start pc plan goal_positions
    env' start' plan' goal_positions' :
  initialized_ st = true ->
  ~ (frame pc = "" /\ constraint pc = "") ->
  is_Some (worldToMap (getCostmap env) (p_x start) (p_y start)) ->
  pc <> position_constraint_ st ->
  lookupTransform env (frame pc) (getGlobalFrameID env) = None
  \/ ce_init (constraint pc) = None ->
  let o := makePlan env st start pc plan goal_positions in
  let o' := makePlan env' (state o) start' (position_constraint_ st)
                     plan' goal_positions' in
  ret o = false
  /\ goal_positions_in_constraint_frame_ (state o) = []
  /\ position_constraint_ (state o) = position_constraint_ st
  /\ ret o' = false
  /\ filter is_rebuild (trace o') = []
  /\ filter is_search (trace o') = [].
Proof.
  intros Hinit Hpc Hstart Hne Hfail o o'.
  pose proof (rebuild_fails env st pc Hfail) as Hf.
  assert (ret o = false
          /\ state o = set_goal_positions_in_constraint_frame [] st) as [Hret Hst].
  { subst o o'.
    destruct (makePlan_runs env st start pc plan goal_positions)
      as [Hu | _ He | _ _ Hs | sx sy st1 tr _ _ _ Hr | sx sy st1 tr my' gp _ _ _ Hr Hp
          | sx sy st1 tr mx' my' gp p xs ys trs _ _ _ Hr Hp Hmx Hs];
      simpl; try congruence; try done.
    - rewrite Hs in Hstart. by destruct Hstart.
    - inversion Hr as [ | | st2 _ Hu ]; subst. by apply rebuild_false in Hu.
    - inversion Hr as [ | st2 _ Hu | ]; subst; [done|]. rewrite Hu in Hf. done.
    - inversion Hr as [ | st2 _ Hu | ]; subst; [done|]. rewrite Hu in Hf. done. }
  split; [done|]. rewrite Hst. split; [done|]. split; [done|].
  subst o'. rewrite Hst.
  destruct (makePlan_runs env' (set_goal_positions_in_constraint_frame [] st) start'
              (position_constraint_ st) plan' goal_positions')
    as [Hu | _ He | _ _ Hs | sx sy st1 tr _ _ _ Hr | sx sy st1 tr my' gp _ _ _ Hr Hp
        | sx sy st1 tr mx' my' gp p xs ys trs _ _ _ Hr Hp Hmx Hs];
    simpl; try done.
  - inversion Hr; subst. simpl in *. done.
  - inversion Hr; subst; simpl in *; done.
  - inversion Hr; subst; simpl in *; [|done].
    unfold calculateMapConstraintArea in Hp. simpl in Hp. by injection Hp as <- _ _.
Qed.

End StaleRegion.

Module MoreExamples.
Import GridWorld.

Lemma translate_back p : translate (2, 2) (translate (-2, -2) p) = p.
Proof. destruct p as [x y z]. unfold translate. simpl. f_equal; lia. Qed.

(** The rebuild at a concrete input: the region of ([beacon], [here]) is
    the one point at the origin of the frame. *)
Lemma updateConstraintPositionsInConstraintFrame_region_witness :
  let r := updateConstraintPositionsInConstraintFrame
             (env direct) (fresh direct) (mkConstraint "beacon" "here") in
  fst r = true /\ goal_positions_in_constraint_frame_ (snd r) = [pt 0 0].
Proof.
  intros r.
  destruct (updateConstraintPositionsInConstraintFrame_region
              (env direct) (fresh direct) (mkConstraint "beacon" "here") (-2, -2) 0)
    as (Hok & Hregion & _); [reflexivity | reflexivity |].
  split; [exact Hok|]. fold r in Hregion. rewrite Hregion. reflexivity.
Defined.

(** The goal cells of ([beacon], [near]) in the concrete world: the nine
    cells around (2,2) less the two impassable ones. *)
Lemma makePlan_goal_cells_witness :
  let o := makePlan (env direct) (fresh direct) (pt 0 0)
                    (mkConstraint "beacon" "near") [] [] in
  filter is_project (trace o)
  = [EvProject [1; 1; 2; 2; 3; 3; 3] [2; 3; 2; 3; 1; 2; 3]]
  /\ out_goal_positions o
     = [pt 1 2; pt 1 3; pt 2 2; pt 2 3; pt 3 1; pt 3 2; pt 3 3].
Proof.
  apply (makePlan_goal_cells
           (env direct) (fresh direct) (pt 0 0) (mkConstraint "beacon" "near")
           [] [] (-2, -2) (2, 2) 1).
  - reflexivity.
  - intros [Hf _]. discriminate Hf.
  - exists (0, 0). reflexivity.
  - discriminate.
  - reflexivity.
  - reflexivity.
  - reflexivity.
  - intros c _. apply translate_back.
  - intros c Hc. vm_compute in Hc.
    repeat (destruct Hc as [<- | Hc]; [reflexivity|]). destruct Hc.
Defined.

(** The goal positions of a concrete call are on free cells. *)
Lemma makePlan_goal_positions_free_witness :
  exists x y,
    worldToMap (getCostmap (env direct)) (p_x (pt 3 1)) (p_y (pt 3 1)) = Some (x, y)
    /\ getCost (getCostmap (env direct)) x y <> costmap_2d.INSCRIBED_INFLATED_OBSTACLE
    /\ getCost (getCostmap (env direct)) x y <> costmap_2d.LETHAL_OBSTACLE.
Proof.
  apply (makePlan_goal_positions_free
           (env direct) (fresh direct) (pt 0 0) (mkConstraint "beacon" "near")
           [] [] (pt 3 1)).
  - reflexivity.
  - vm_compute. auto 10.
Defined.

(** A successful concrete call. *)
Lemma makePlan_success_witness :
  let o := makePlan (env direct) (fresh direct) (pt 0 0)
                    (mkConstraint "beacon" "here") [] [] in
  position_constraint_ (state o) = mkConstraint "beacon" "here"
  /\ out_plan o <> [].
Proof.
  intros o.
  destruct (makePlan_success
              (env direct) (fresh direct) (pt 0 0) (mkConstraint "beacon" "here")
              [] []) as (_ & _ & _ & Hc & Hp & _); [reflexivity|].
  split; [exact Hc | exact Hp].
Defined.

(** A concrete call with its start off the grid. *)
Lemma makePlan_precondition_failure_witness :
  let o := makePlan (env direct) (at_beacon direct) (pt 7 0)
                    (mkConstraint "beacon" "near") [] [] in
  ret o = false /\ state o = at_beacon direct /\ trace o = [].
Proof.
  apply (makePlan_precondition_failure
           (env direct) (at_beacon direct) (pt 7 0) (mkConstraint "beacon" "near")
           [] []).
  right. right. reflexivity.
Defined.

(** A concrete call whose forward search finds a path. *)
Lemma makePlan_forward_path_witness :
  let o := makePlan (env direct) (fresh direct) (pt 0 0)
                    (mkConstraint "beacon" "here") [] [] in
  filter is_search (trace o) = [EvSearch [2] [2] 0 0 false [0; 2] [0; 2]]
  /\ out_plan o = planToWorld (env direct) [0; 2] [0; 2] []
  /\ ret o = true.
Proof.
  intros o.
  destruct (makePlan_forward_path
              (env direct) (fresh direct) (pt 0 0) (mkConstraint "beacon" "here")
              [] [] [2] [2] 0 0 [0; 2] [0; 2])
    as (_ & _ & Hs & Hp & Hr); [vm_compute; auto | discriminate |].
  split; [exact Hs|]. split; [exact Hp | exact Hr].
Defined.


(** [planToWorld] on a vector that already holds a pose: a row of three
    cells keeps the old orientation in slot 0 and gets the new stamp. *)
Lemma planToWorld_overwrites_witness :
  let old := [a_pose_facing direct 3 3 9] in
  let plan := planToWorld (env direct) [0; 1; 2] [0; 0; 0] old in
  length plan = 3%nat
  /\ stamp_of direct (plan !!! 0%nat) = 42
  /\ yaw_of direct (plan !!! 0%nat) = Some 9.
Proof.
  intros old plan.
  destruct (planToWorld_overwrites (env direct) [0; 1; 2] [0; 0; 0] old 0%nat)
    as (Hlen & Hh & _ & _ & _ & Hshort); [vm_compute; discriminate | simpl; lia |].
  split; [exact Hlen|]. split; [unfold stamp_of; fold plan in Hh; by rewrite Hh|].
  apply Hshort. simpl. lia.
Defined.

(** The tail of a row of seven cells. *)
Lemma planToWorld_tail_heading_witness :
  let plan := planToWorld (env direct) [0; 1; 2; 3; 4; 5; 6] [0; 0; 0; 0; 0; 0; 0] [] in
  yaw_of direct (plan !!! 6%nat) = Some 1.
Proof.
  apply (planToWorld_tail_heading
           (env direct) [0; 1; 2; 3; 4; 5; 6] [0; 0; 0; 0; 0; 0; 0] [] 6%nat).
  - vm_compute. discriminate.
  - simpl. lia.
  - simpl. lia.
  - simpl. lia.
Defined.

(** Materialize and validate a concrete path: through the lethal cell it is
    refused. *)
Lemma checkPlan_planToWorld_witness :
  checkPlan (env direct) (planToWorld (env direct) [0; 1; 2] [1; 1; 1] []) = true
  <-> forall i, (i < 3)%nat ->
        is_obstacle (cost (uint32 ([0; 1; 2] !!! i)) (uint32 ([1; 1; 1] !!! i))) = false.
Proof.
  apply (checkPlan_planToWorld (env direct) [0; 1; 2] [1; 1; 1] []).
  - vm_compute. discriminate.
  - intros i Hi. simpl in Hi.
    destruct i as [|[|[|i]]]; [reflexivity | reflexivity | reflexivity | lia].
Defined.

(** A failed rebuild in the concrete world, then the stored constraint. *)
Lemma makePlan_failed_rebuild_then_stored_witness :
  let o := makePlan (env direct) (at_beacon direct) (pt 0 0)
                    (mkConstraint "ghost" "here") [] [] in
  let o' := makePlan (env direct) (state o) (pt 0 0)
                     (mkConstraint "beacon" "here") [] [] in
  ret o = false
  /\ goal_positions_in_constraint_frame_ (state o) = []
  /\ position_constraint_ (state o) = mkConstraint "beacon" "here"
  /\ ret o' = false
  /\ filter is_rebuild (trace o') = []
  /\ filter is_search (trace o') = [].
Proof.
  apply (makePlan_failed_rebuild_then_stored
           (env direct) (at_beacon direct) (pt 0 0) (mkConstraint "ghost" "here")
           [] [] (env direct) (pt 0 0) [] []).
  - reflexivity.
  - intros [Hf _]. discriminate Hf.
  - exists (0, 0). reflexivity.
  - discriminate.
  - left. reflexivity.
Defined.

End MoreExamples.
